(** * Verification of poetry's console application core and text helpers

    Shallow embedding of [poetry/utils/_compat.py] (the [decode] and
    [encode] helpers) and of [poetry/console/application.py] (the
    application orchestration: option extraction, plugin loading,
    working-directory scoping, the not-found override table, the input
    rewrite of the [run] command, the memoized [poetry] property and the
    before-run listeners). *)

From Stdlib Require Import String Ascii List ZArith Lia Bool Wf_nat.
Import ListNotations.
Open Scope string_scope.
Open Scope Z_scope.
Open Scope list_scope.

(* ================================================================== *)
(** * [poetry.utils._compat]: [decode] and [encode] *)
(* ================================================================== *)

Module Compat.

(** A Python [str] is a list of code points, a Python [bytes] a list of
    byte values (integers in [0, 255]). *)
Definition pystr := list Z.
Definition pybytes := list Z.

(** The argument of [decode]/[encode]: [bytes | str]. *)
Inductive pyobj :=
| PStr (s : pystr)
| PBytes (b : pybytes).

(** Exceptions raised by a codec lookup or a codec call, and the
    [IndexError] of [encodings[0]] on an empty list.  [UnicodeError] is
    the base class, raised as such by some codecs (CPython's [undefined]
    codec); [UnicodeDecodeError] and [UnicodeEncodeError] are its two
    subclasses that the helpers suppress. *)
Inductive exc :=
| LookupError (encoding : string)
| IndexError
| UnicodeError
| UnicodeDecodeError
| UnicodeEncodeError.

Inductive result (A : Type) :=
| Ok (a : A)
| Raise (e : exc).
Arguments Ok {A} a.
Arguments Raise {A} e.

(** A codec as the [str.encode]/[bytes.decode] machinery uses it: its
    strict calls and its [errors="ignore"] calls, each of which may
    raise. *)
Record codec := {
  dec_strict : pybytes -> result pystr;
  dec_ignore : pybytes -> result pystr;
  enc_strict : pystr -> result pybytes;
  enc_ignore : pystr -> result pybytes
}.

(** [suppress(UnicodeEncodeError, UnicodeDecodeError)]: the exceptions
    the helpers' loops swallow. *)
Definition suppressed (e : exc) : bool :=
  match e with
  | UnicodeDecodeError | UnicodeEncodeError => true
  | _ => false
  end.

(** ** UTF-8, as CPython's codec implements it *)

Definition in_range (lo hi b : Z) : bool := (lo <=? b) && (b <=? hi).
Definition cont (b : Z) : bool := in_range 0x80 0xBF b.

(** Bounds on the second byte of a three- and four-byte sequence
    (no overlong forms, no surrogates, nothing above U+10FFFF). *)
Definition lo3 (b0 : Z) : Z := if b0 =? 0xE0 then 0xA0 else 0x80.
Definition hi3 (b0 : Z) : Z := if b0 =? 0xED then 0x9F else 0xBF.
Definition lo4 (b0 : Z) : Z := if b0 =? 0xF0 then 0x90 else 0x80.
Definition hi4 (b0 : Z) : Z := if b0 =? 0xF4 then 0x8F else 0xBF.

(** The code point of a sequence, computed as CPython's decoder does:
    shift the bytes in and subtract the accumulated marker bits. *)
Definition cp2 (b0 b1 : Z) : Z :=
  Z.shiftl b0 6 + b1 - (Z.shiftl 0xC0 6 + 0x80).
Definition cp3 (b0 b1 b2 : Z) : Z :=
  Z.shiftl b0 12 + Z.shiftl b1 6 + b2
  - (Z.shiftl 0xE0 12 + Z.shiftl 0x80 6 + 0x80).
Definition cp4 (b0 b1 b2 b3 : Z) : Z :=
  Z.shiftl b0 18 + Z.shiftl b1 12 + Z.shiftl b2 6 + b3
  - (Z.shiftl 0xF0 18 + Z.shiftl 0x80 12 + Z.shiftl 0x80 6 + 0x80).

Definition cons_opt (c : Z) (r : option pystr) : option pystr :=
  match r with Some s => Some (c :: s) | None => None end.

(** Strict decoding: [bytes.decode("utf-8")]. *)
Fixpoint utf8_decode (bs : pybytes) : option pystr :=
  match bs with
  | [] => Some []
  | b0 :: r =>
    if b0 <? 0x80 then cons_opt b0 (utf8_decode r)
    else if in_range 0xC2 0xDF b0 then
      match r with
      | b1 :: r1 => if cont b1 then cons_opt (cp2 b0 b1) (utf8_decode r1) else None
      | [] => None
      end
    else if in_range 0xE0 0xEF b0 then
      match r with
      | b1 :: b2 :: r2 =>
        if in_range (lo3 b0) (hi3 b0) b1 && cont b2
        then cons_opt (cp3 b0 b1 b2) (utf8_decode r2) else None
      | _ => None
      end
    else if in_range 0xF0 0xF4 b0 then
      match r with
      | b1 :: b2 :: b3 :: r3 =>
        if in_range (lo4 b0) (hi4 b0) b1 && cont b2 && cont b3
        then cons_opt (cp4 b0 b1 b2 b3) (utf8_decode r3) else None
      | _ => None
      end
    else None
  end.

(** [bytes.decode("utf-8", errors="ignore")]: an invalid sequence is
    dropped.  CPython drops the maximal invalid subpart; all of its bytes
    after the first are continuation bytes, which are invalid on their own,
    so dropping one byte and resuming gives the same text. *)
Fixpoint utf8_decode_ignore (bs : pybytes) : pystr :=
  match bs with
  | [] => []
  | b0 :: r =>
    if b0 <? 0x80 then b0 :: utf8_decode_ignore r
    else if in_range 0xC2 0xDF b0 then
      match r with
      | b1 :: r1 => if cont b1 then cp2 b0 b1 :: utf8_decode_ignore r1
                    else utf8_decode_ignore r
      | [] => []
      end
    else if in_range 0xE0 0xEF b0 then
      match r with
      | b1 :: b2 :: r2 =>
        if in_range (lo3 b0) (hi3 b0) b1 && cont b2
        then cp3 b0 b1 b2 :: utf8_decode_ignore r2 else utf8_decode_ignore r
      | _ => utf8_decode_ignore r
      end
    else if in_range 0xF0 0xF4 b0 then
      match r with
      | b1 :: b2 :: b3 :: r3 =>
        if in_range (lo4 b0) (hi4 b0) b1 && cont b2 && cont b3
        then cp4 b0 b1 b2 b3 :: utf8_decode_ignore r3 else utf8_decode_ignore r
      | _ => utf8_decode_ignore r
      end
    else utf8_decode_ignore r
  end.

(** Encoding one code point; surrogates are not encodable. *)
Definition utf8_encode_cp (c : Z) : option pybytes :=
  if c <? 0 then None
  else if c <? 0x80 then Some [c]
  else if c <? 0x800 then
    Some [Z.lor 0xC0 (Z.shiftr c 6); Z.lor 0x80 (Z.land c 0x3F)]
  else if in_range 0xD800 0xDFFF c then None
  else if c <? 0x10000 then
    Some [Z.lor 0xE0 (Z.shiftr c 12); Z.lor 0x80 (Z.land (Z.shiftr c 6) 0x3F);
          Z.lor 0x80 (Z.land c 0x3F)]
  else if c <=? 0x10FFFF then
    Some [Z.lor 0xF0 (Z.shiftr c 18); Z.lor 0x80 (Z.land (Z.shiftr c 12) 0x3F);
          Z.lor 0x80 (Z.land (Z.shiftr c 6) 0x3F); Z.lor 0x80 (Z.land c 0x3F)]
  else None.

Fixpoint utf8_encode (s : pystr) : option pybytes :=
  match s with
  | [] => Some []
  | c :: r =>
    match utf8_encode_cp c, utf8_encode r with
    | Some b, Some br => Some (b ++ br)
    | _, _ => None
    end
  end.

Fixpoint utf8_encode_ignore (s : pystr) : pybytes :=
  match s with
  | [] => []
  | c :: r =>
    match utf8_encode_cp c with
    | Some b => b ++ utf8_encode_ignore r
    | None => utf8_encode_ignore r
    end
  end.

Definition utf8 : codec := {|
  dec_strict := fun b => match utf8_decode b with
                         | Some s => Ok s | None => Raise UnicodeDecodeError end;
  dec_ignore := fun b => Ok (utf8_decode_ignore b);
  enc_strict := fun s => match utf8_encode s with
                         | Some b => Ok b | None => Raise UnicodeEncodeError end;
  enc_ignore := fun s => Ok (utf8_encode_ignore s) |}.

(** ** latin-1 and ascii: one byte per code point below a bound *)

Definition all_below (n : Z) (l : list Z) : bool := forallb (fun c => c <? n) l.

Definition below_codec (n : Z) : codec := {|
  dec_strict := fun b => if all_below n b then Ok b else Raise UnicodeDecodeError;
  dec_ignore := fun b => Ok (filter (fun c => c <? n) b);
  enc_strict := fun s => if all_below n s then Ok s else Raise UnicodeEncodeError;
  enc_ignore := fun s => Ok (filter (fun c => c <? n) s) |}.

Definition latin1 : codec := below_codec 256.
Definition ascii_codec : codec := below_codec 128.

(** CPython's [encodings.undefined]: every call raises
    [UnicodeError("undefined encoding")], whatever the error handler. *)
Definition undefined_codec : codec := {|
  dec_strict := fun _ => Raise UnicodeError;
  dec_ignore := fun _ => Raise UnicodeError;
  enc_strict := fun _ => Raise UnicodeError;
  enc_ignore := fun _ => Raise UnicodeError |}.

(** The codec registry consulted by [bytes.decode(name)] and
    [str.encode(name)]; an unknown name raises [LookupError].  This
    registry knows the three codecs the helpers name and CPython's
    [undefined] codec; every other name is treated as unknown. *)
Definition std_registry (name : string) : option codec :=
  if String.eqb name "utf-8" then Some utf8
  else if String.eqb name "latin1" then Some latin1
  else if String.eqb name "ascii" then Some ascii_codec
  else if String.eqb name "undefined" then Some undefined_codec
  else None.

Section Helpers.

Variable registry : string -> option codec.

Definition default_encodings : list string := ["utf-8"; "latin1"; "ascii"].

(** [encodings = encodings or ["utf-8", "latin1", "ascii"]]: both [None]
    and the empty list are falsy. *)
Definition effective_encodings (encodings : option (list string)) : list string :=
  match encodings with
  | None | Some [] => default_encodings
  | Some l => l
  end.

(** The loop [for encoding in encodings: with suppress(...): return ...];
    [Ok None] means every encoding failed with a suppressed error. *)
Fixpoint try_decode (encs : list string) (b : pybytes) : result (option pystr) :=
  match encs with
  | [] => Ok None
  | e :: es =>
    match registry e with
    | None => Raise (LookupError e)
    | Some c =>
      match dec_strict c b with
      | Ok s => Ok (Some s)
      | Raise err => if suppressed err then try_decode es b else Raise err
      end
    end
  end.

Fixpoint try_encode (encs : list string) (s : pystr) : result (option pybytes) :=
  match encs with
  | [] => Ok None
  | e :: es =>
    match registry e with
    | None => Raise (LookupError e)
    | Some c =>
      match enc_strict c s with
      | Ok b => Ok (Some b)
      | Raise err => if suppressed err then try_encode es s else Raise err
      end
    end
  end.

Definition decode (string : pyobj) (encodings : option (list String.string)) : result pyobj :=
  match string with
  | PStr s => Ok (PStr s)
  | PBytes b =>
    let encs := effective_encodings encodings in
    match try_decode encs b with
    | Raise e => Raise e
    | Ok (Some s) => Ok (PStr s)
    | Ok None =>
      match encs with
      | [] => Raise IndexError
      | e0 :: _ =>
        match registry e0 with
        | None => Raise (LookupError e0)
        | Some c =>
          match dec_ignore c b with
          | Ok s => Ok (PStr s)
          | Raise err => Raise err
          end
        end
      end
    end
  end.

Definition encode (string : pyobj) (encodings : option (list String.string)) : result pyobj :=
  match string with
  | PBytes b => Ok (PBytes b)
  | PStr s =>
    let encs := effective_encodings encodings in
    match try_encode encs s with
    | Raise e => Raise e
    | Ok (Some b) => Ok (PBytes b)
    | Ok None =>
      match encs with
      | [] => Raise IndexError
      | e0 :: _ =>
        match registry e0 with
        | None => Raise (LookupError e0)
        | Some c =>
          match enc_ignore c s with
          | Ok b => Ok (PBytes b)
          | Raise err => Raise err
          end
        end
      end
    end
  end.

End Helpers.

Example utf8_euro :
  utf8_encode [0x20AC] = Some [0xE2; 0x82; 0xAC] /\
  utf8_decode [0xE2; 0x82; 0xAC] = Some [0x20AC].
Proof. split; reflexivity. Qed.

Example utf8_four :
  utf8_encode [0x1F600] = Some [0xF0; 0x9F; 0x98; 0x80] /\
  utf8_decode [0xF0; 0x9F; 0x98; 0x80] = Some [0x1F600].
Proof. split; reflexivity. Qed.

Example decode_fallback :
  decode std_registry (PBytes [0xFF; 0x41]) (Some ["utf-8"]) = Ok (PStr [0x41]).
Proof. reflexivity. Qed.

(** ** Bit-level facts used by the codec proofs *)

Lemma lor_disjoint_add (a x k : Z) :
  0 <= k -> 0 <= x < 2 ^ k -> a mod 2 ^ k = 0 -> Z.lor a x = a + x.
Proof.
  intros Hk Hx Ha.
  assert (Hl : Z.land a x = 0).
  { apply Z.bits_inj'. intros i Hi. rewrite Z.land_spec, Z.bits_0.
    destruct (Z.lt_ge_cases i k) as [Hik | Hik].
    - rewrite <- (Z.mod_pow2_bits_low a k i) by lia. rewrite Ha, Z.bits_0.
      reflexivity.
    - rewrite <- (Z.mod_small x (2 ^ k)) by lia.
      rewrite Z.mod_pow2_bits_high by lia. apply andb_false_r. }
  rewrite <- Z.lxor_lor by exact Hl. rewrite Z.add_nocarry_lxor by exact Hl.
  reflexivity.
Qed.

Lemma land_3f (c : Z) : Z.land c 0x3F = c mod 64.
Proof. change 0x3F with (Z.ones 6). rewrite Z.land_ones by lia. reflexivity. Qed.

Lemma in_range_true (lo hi b : Z) : lo <= b <= hi -> in_range lo hi b = true.
Proof. intros H. unfold in_range. apply andb_true_intro; split; apply Z.leb_le; lia. Qed.

Lemma ltb_false (a b : Z) : b <= a -> (a <? b) = false.
Proof. intros H. apply Z.ltb_ge. exact H. Qed.

Lemma some_inj {A : Type} (a b : A) : Some a = Some b -> b = a.
Proof. congruence. Qed.

Ltac bits_to_arith :=
  repeat rewrite land_3f in *;
  repeat rewrite Z.shiftr_div_pow2 in * by lia;
  repeat rewrite Z.shiftl_mul_pow2 in * by lia.

(** Decoding the bytes of one encoded code point consumes exactly them. *)
Lemma utf8_decode_encode_cp (c : Z) (bc rest : pybytes) :
  utf8_encode_cp c = Some bc ->
  utf8_decode (bc ++ rest) = cons_opt c (utf8_decode rest).
Proof.
  unfold utf8_encode_cp.
  destruct (Z.ltb_spec c 0); [discriminate |].
  destruct (Z.ltb_spec c 0x80).
  { intros [= <-]. simpl. rewrite (proj2 (Z.ltb_lt c 0x80)) by lia. reflexivity. }
  destruct (Z.ltb_spec c 0x800).
  { intros Hb; apply some_inj in Hb; subst bc. bits_to_arith.
    rewrite (lor_disjoint_add 0xC0 _ 6) by (try Z.div_mod_to_equations; lia).
    rewrite (lor_disjoint_add 0x80 _ 6) by (try Z.div_mod_to_equations; lia).
    cbn [app utf8_decode].
    rewrite ltb_false by (Z.div_mod_to_equations; lia).
    rewrite in_range_true by (Z.div_mod_to_equations; lia).
    unfold cont. rewrite in_range_true by (Z.div_mod_to_equations; lia).
    unfold cp2. bits_to_arith.
    replace (_ - _) with c by (Z.div_mod_to_equations; lia). reflexivity. }
  destruct (in_range 0xD800 0xDFFF c) eqn:Hsur; [discriminate |].
  assert (Hns : c < 0xD800 \/ 0xDFFF < c).
  { unfold in_range in Hsur. apply andb_false_iff in Hsur.
    destruct Hsur as [Hs | Hs]; apply Z.leb_gt in Hs; lia. }
  destruct (Z.ltb_spec c 0x10000).
  { intros Hb; apply some_inj in Hb; subst bc. bits_to_arith.
    rewrite (lor_disjoint_add 0xE0 _ 4) by (try Z.div_mod_to_equations; lia).
    rewrite !(lor_disjoint_add 0x80 _ 6) by (try Z.div_mod_to_equations; lia).
    cbn [app utf8_decode].
    rewrite ltb_false by (Z.div_mod_to_equations; lia).
    assert (Hn2 : in_range 0xC2 0xDF (0xE0 + c / 2 ^ 12) = false).
    { unfold in_range. apply andb_false_iff. right. apply Z.leb_gt.
      Z.div_mod_to_equations; lia. }
    rewrite Hn2.
    rewrite in_range_true by (Z.div_mod_to_equations; lia).
    assert (Hb1 : in_range (lo3 (0xE0 + c / 2 ^ 12)) (hi3 (0xE0 + c / 2 ^ 12))
                    (0x80 + c / 2 ^ 6 mod 64) = true).
    { unfold lo3, hi3.
      destruct (Z.eqb_spec (0xE0 + c / 2 ^ 12) 0xE0);
      destruct (Z.eqb_spec (0xE0 + c / 2 ^ 12) 0xED);
      apply in_range_true; Z.div_mod_to_equations; lia. }
    rewrite Hb1. unfold cont. rewrite in_range_true by (Z.div_mod_to_equations; lia).
    cbn [andb]. unfold cp3. bits_to_arith.
    replace (_ - _) with c by (Z.div_mod_to_equations; lia). reflexivity. }
  destruct (Z.leb_spec c 0x10FFFF); [| discriminate].
  intros Hb; apply some_inj in Hb; subst bc. bits_to_arith.
  rewrite (lor_disjoint_add 0xF0 _ 3) by (try Z.div_mod_to_equations; lia).
  rewrite !(lor_disjoint_add 0x80 _ 6) by (try Z.div_mod_to_equations; lia).
  cbn [app utf8_decode].
  rewrite ltb_false by (Z.div_mod_to_equations; lia).
  assert (Hn2 : in_range 0xC2 0xDF (0xF0 + c / 2 ^ 18) = false).
  { unfold in_range. apply andb_false_iff. right. apply Z.leb_gt.
    Z.div_mod_to_equations; lia. }
  assert (Hn3 : in_range 0xE0 0xEF (0xF0 + c / 2 ^ 18) = false).
  { unfold in_range. apply andb_false_iff. right. apply Z.leb_gt.
    Z.div_mod_to_equations; lia. }
  rewrite Hn2, Hn3.
  rewrite in_range_true by (Z.div_mod_to_equations; lia).
  assert (Hb1 : in_range (lo4 (0xF0 + c / 2 ^ 18)) (hi4 (0xF0 + c / 2 ^ 18))
                  (0x80 + c / 2 ^ 12 mod 64) = true).
  { unfold lo4, hi4.
    destruct (Z.eqb_spec (0xF0 + c / 2 ^ 18) 0xF0);
    destruct (Z.eqb_spec (0xF0 + c / 2 ^ 18) 0xF4);
    apply in_range_true; Z.div_mod_to_equations; lia. }
  rewrite Hb1. unfold cont.
  rewrite !in_range_true by (Z.div_mod_to_equations; lia).
  cbn [andb]. unfold cp4. bits_to_arith.
  replace (_ - _) with c by (Z.div_mod_to_equations; lia). reflexivity.
Qed.

Lemma utf8_decode_encode (s : pystr) (b : pybytes) :
  utf8_encode s = Some b -> utf8_decode b = Some s.
Proof.
  revert b; induction s as [| c r IH]; intros b Henc; simpl in Henc.
  - injection Henc as <-. reflexivity.
  - destruct (utf8_encode_cp c) as [bc |] eqn:Hc; [| discriminate].
    destruct (utf8_encode r) as [br |] eqn:Hr; [| discriminate].
    injection Henc as <-.
    rewrite (utf8_decode_encode_cp c bc br Hc), (IH br eq_refl). reflexivity.
Qed.

(** ** Totality of the helpers *)

Section Totality.

Variable registry : String.string -> option codec.

(** A codec name the helpers can rely on: it is known, its strict calls
    fail only with a suppressed error and its [errors="ignore"] calls do
    not raise. *)
Definition reliable (e : String.string) : Prop :=
  exists c, registry e = Some c /\
    (forall b err, dec_strict c b = Raise err -> suppressed err = true) /\
    (forall b, exists s, dec_ignore c b = Ok s) /\
    (forall s err, enc_strict c s = Raise err -> suppressed err = true) /\
    (forall s, exists b, enc_ignore c s = Ok b).

Lemma try_decode_known (encs : list String.string) (b : pybytes) :
  Forall reliable encs ->
  exists o, try_decode registry encs b = Ok o.
Proof.
  induction 1 as [| e es He _ IH]; simpl; [eauto |].
  destruct He as (c & Hc & Hds & _ & _ & _). rewrite Hc.
  destruct (dec_strict c b) as [s | err] eqn:Hd; [eauto |].
  rewrite (Hds b err Hd). exact IH.
Qed.

Lemma try_encode_known (encs : list String.string) (s : pystr) :
  Forall reliable encs ->
  exists o, try_encode registry encs s = Ok o.
Proof.
  induction 1 as [| e es He _ IH]; simpl; [eauto |].
  destruct He as (c & Hc & _ & _ & Hes & _). rewrite Hc.
  destruct (enc_strict c s) as [b | err] eqn:Hd; [eauto |].
  rewrite (Hes s err Hd). exact IH.
Qed.

Lemma try_decode_all_fail (encs : list String.string) (b : pybytes) :
  Forall (fun e => exists c err, registry e = Some c /\ dec_strict c b = Raise err /\
                                 suppressed err = true) encs ->
  try_decode registry encs b = Ok None.
Proof.
  induction 1 as [| e es (c & err & Hc & Hd & Hs) _ IH]; simpl; [reflexivity |].
  rewrite Hc, Hd, Hs. exact IH.
Qed.

Lemma effective_encodings_nonempty (encodings : option (list String.string)) :
  effective_encodings encodings <> [].
Proof. destruct encodings as [[|]|]; discriminate. Qed.

End Totality.

Lemma utf8_reliable : reliable std_registry "utf-8".
Proof.
  exists utf8. split; [reflexivity |]. cbn.
  repeat split; intros *.
  - destruct (utf8_decode b); intros H; [discriminate | injection H as <-; reflexivity].
  - eauto.
  - destruct (utf8_encode s); intros H; [discriminate | injection H as <-; reflexivity].
  - eauto.
Qed.

Lemma below_codec_reliable (n : Z) :
  (forall b err, dec_strict (below_codec n) b = Raise err -> suppressed err = true) /\
  (forall b, exists s, dec_ignore (below_codec n) b = Ok s) /\
  (forall s err, enc_strict (below_codec n) s = Raise err -> suppressed err = true) /\
  (forall s, exists b, enc_ignore (below_codec n) s = Ok b).
Proof.
  cbn. repeat split; intros *.
  - destruct (all_below n b); intros H; [discriminate | injection H as <-; reflexivity].
  - eauto.
  - destruct (all_below n s); intros H; [discriminate | injection H as <-; reflexivity].
  - eauto.
Qed.

Lemma default_encodings_reliable :
  Forall (reliable std_registry) (effective_encodings None).
Proof.
  repeat constructor.
  - exact utf8_reliable.
  - exists latin1. split; [reflexivity | apply below_codec_reliable].
  - exists ascii_codec. split; [reflexivity | apply below_codec_reliable].
Qed.

End Compat.

(* ================================================================== *)
(** * [poetry.console.application] *)
(* ================================================================== *)

Module Console.

(** Python values held by parsed options. *)
Inductive pyval :=
| VBool (b : bool)
| VStr (s : string)
| VNone.

(** Python truthiness of an option value ([if value:]). *)
Definition truthy (v : pyval) : bool :=
  match v with
  | VBool b => b
  | VStr s => negb (String.eqb s "")
  | VNone => false
  end.

Inductive exc :=
| CleoValueError (what : string)
| CommandNotFound (name : string)
| InvalidPath (path : string)
| PoetryError
| CommandError (code : Z)
| IndexError
| TypeError.

Inductive outcome (A : Type) :=
| Ret (a : A)
| Exc (e : exc).
Arguments Ret {A} a.
Arguments Exc {A} e.

(** ** Options and definitions (cleo's [Option] and [Definition]) *)

(** An option as cleo stores it: name without its dashes, the shortcut
    string as declared, whether it is a flag, its default value. *)
Record Option := {
  opt_name : string;
  opt_shortcut : option string;
  opt_flag : bool;
  opt_default : pyval
}.

Definition flag_option (name : string) (shortcut : option string) : Option :=
  {| opt_name := name; opt_shortcut := shortcut; opt_flag := true;
     opt_default := VBool false |}.
Definition value_option (name : string) (shortcut : option string) : Option :=
  {| opt_name := name; opt_shortcut := shortcut; opt_flag := false;
     opt_default := VNone |}.

(** The options of cleo's [Application._default_definition]. *)
Definition cleo_default_options : list Option :=
  [flag_option "help" (Some "h");
   flag_option "quiet" (Some "q");
   flag_option "verbose" (Some "v|vv|vvv");
   flag_option "version" (Some "V");
   flag_option "ansi" None;
   flag_option "no-ansi" None;
   flag_option "no-interaction" (Some "n")].

(** [Application._default_definition]: cleo's options and poetry's four. *)
Definition app_definition : list Option :=
  cleo_default_options ++
  [flag_option "no-plugins" None;
   flag_option "no-cache" None;
   value_option "project" (Some "P");
   value_option "directory" (Some "C")].

(** [definition.option(name)]. *)
Definition find_option (definition : list Option) (name : string) : option Option :=
  find (fun o => String.eqb (opt_name o) name) definition.

Fixpoint assoc {A : Type} (k : string) (l : list (string * A)) : option A :=
  match l with
  | [] => None
  | (k', v) :: r => if String.eqb k k' then Some v else assoc k r
  end.

(** [d[k] = v] on a dict kept as an association list. *)
Fixpoint assoc_set {A : Type} (k : string) (v : A) (l : list (string * A))
  : list (string * A) :=
  match l with
  | [] => [(k, v)]
  | (k', v') :: r =>
    if String.eqb k k' then (k, v) :: r else (k', v') :: assoc_set k v r
  end.

(** ** Inputs *)

(** An [ArgvInput] (or poetry's [RunArgvInput] when [is_run_input]):
    script name, raw tokens, the run input's recognised-parameter list,
    the options parsed by the last [bind], and the bound definition. *)
Record Input := {
  script_name : string;
  tokens : list string;
  is_run_input : bool;
  parameter_options : list string;
  parsed : list (string * pyval);
  input_definition : list Option
}.

(** [Input.options]: [{**definition.option_defaults, **self._options}]. *)
Definition options (i : Input) : list (string * pyval) :=
  map (fun o => (opt_name o,
                 match assoc (opt_name o) (parsed i) with
                 | Some v => v
                 | None => opt_default o
                 end))
      (input_definition i).

(** [ArgvInput(argv)] for [RunArgvInput]: the first element is the script
    name, the rest are the tokens. *)
Definition mk_run_argv_input (argv : list string) : Input :=
  {| script_name := hd "" argv; tokens := tl argv; is_run_input := true;
     parameter_options := []; parsed := []; input_definition := [] |}.

(** Modelled from the spec: [RunArgvInput.add_parameter_option] (its
    source is not among the files read) injects a name into the rewritten
    input's recognised-parameter allowlist without consuming anything. *)
Definition add_parameter_option (name : string) (i : Input) : Input :=
  {| script_name := script_name i; tokens := tokens i;
     is_run_input := is_run_input i;
     parameter_options := parameter_options i ++ [name];
     parsed := parsed i; input_definition := input_definition i |}.

(** [Input.set_option]: only options of the bound definition. *)
Definition set_option (name : string) (v : pyval) (i : Input) : outcome Input :=
  if existsb (fun o => String.eqb (opt_name o) name) (input_definition i) then
    Ret {| script_name := script_name i; tokens := tokens i;
           is_run_input := is_run_input i;
           parameter_options := parameter_options i;
           parsed := assoc_set name v (parsed i);
           input_definition := input_definition i |}
  else Exc (CleoValueError name).

(** ** Shortcut splitting *)

(** [s.lstrip("-")]. *)
Fixpoint lstrip_dash (s : string) : string :=
  match s with
  | String c r => if Ascii.eqb c "-"%char then lstrip_dash r else s
  | EmptyString => s
  end.

(** [re.split(r"\|-?", s)]: cut at every [|], which swallows one [-]
    following it; [cur] is the piece being read. *)
Fixpoint split_bar_dash_aux (s : string) (cur : string) : list string :=
  match s with
  | EmptyString => [cur]
  | String c r =>
    if Ascii.eqb c "|"%char then
      match r with
      | String d r' =>
        if Ascii.eqb d "-"%char then cur :: split_bar_dash_aux r' ""
        else cur :: split_bar_dash_aux r ""
      | EmptyString => cur :: split_bar_dash_aux r ""
      end
    else split_bar_dash_aux r (String.append cur (String c EmptyString))
  end.

Definition split_bar_dash (s : string) : list string := split_bar_dash_aux s "".

(** Lines 333-336: the names injected for a shortcut string. *)
Definition shortcut_parameters (shortcut : string) : list string :=
  map (fun s => String.append "-" (lstrip_dash s))
      (filter (fun s => negb (String.eqb s "")) (split_bar_dash (lstrip_dash shortcut))).

(** Lines 330-336, for one option supplied with a truthy value. *)
Definition inject_option (o : Option) (run_input : Input) : Input :=
  let r1 := add_parameter_option (String.append "--" (opt_name o)) run_input in
  match opt_shortcut o with
  | Some sc =>
    if String.eqb sc "" then r1
    else fold_left (fun r p => add_parameter_option p r) (shortcut_parameters sc) r1
  | None => r1
  end.

Example shortcut_parameters_xy : shortcut_parameters "-x|-y" = ["-x"; "-y"].
Proof. reflexivity. Qed.

Example shortcut_parameters_verbose :
  shortcut_parameters "v|vv|vvv" = ["-v"; "-vv"; "-vvv"].
Proof. reflexivity. Qed.

(** ** [Application._configure_io] *)

Fixpoint fold_res {A B : Type} (f : A -> B -> outcome A) (l : list B) (a : A)
  : outcome A :=
  match l with
  | [] => Ret a
  | x :: r => match f a x with Ret a' => fold_res f r a' | Exc e => Exc e end
  end.

(** [self._name], set by [super().__init__("poetry", __version__)]. *)
Definition app_name : string := "poetry".

Section ConfigureIO.

(** cleo's parser: the options an input yields when bound to a
    definition ([ArgvInput._parse], or [RunArgvInput]'s own parser for a
    run input).  Binding runs under [suppress(CleoError)], so a parse
    error leaves whatever was parsed before it. *)
Variable parse : list Option -> Input -> list (string * pyval).

(** [Input.first_argument] of a bound input. *)
Variable first_argument : Input -> option string.

(** [input.bind(definition)]: the tokens stay, the options are re-parsed. *)
Definition bind (definition : list Option) (i : Input) : Input :=
  {| script_name := script_name i; tokens := tokens i;
     is_run_input := is_run_input i;
     parameter_options := parameter_options i;
     parsed := parse definition i; input_definition := definition |}.

(** One iteration of the loop at lines 328-336. *)
Definition inject_step (definition : list Option) (run_input : Input)
    (nv : string * pyval) : outcome Input :=
  let '(option_name, value) := nv in
  if truthy value then
    match find_option definition option_name with
    | Some o => Ret (inject_option o run_input)
    | None => Exc (CleoValueError option_name)
    end
  else Ret run_input.

(** One iteration of the loop at lines 341-343. *)
Definition reset_step (run_input : Input) (nv : string * pyval) : outcome Input :=
  let '(option_name, value) := nv in
  if truthy value then set_option option_name value run_input
  else Ret run_input.

(** [Application._configure_io] up to the call of the base class, which
    only reads the input (decoration, interactivity, verbosity). *)
Definition configure_io (definition : list Option) (i : Input) : outcome Input :=
  let input := bind definition i in
  match first_argument input with
  | Some name =>
    if String.eqb name "run" then
      let run_input := mk_run_argv_input (app_name :: tokens input) in
      match fold_res (inject_step definition) (options input) run_input with
      | Exc e => Exc e
      | Ret run_input1 =>
        fold_res reset_step (options input) (bind definition run_input1)
      end
    else Ret input
  | None => Ret input
  end.

End ConfigureIO.

(** ** Frame lemmas for the rewrite *)

Definition with_params (l : list string) (i : Input) : Input :=
  {| script_name := script_name i; tokens := tokens i;
     is_run_input := is_run_input i; parameter_options := l;
     parsed := parsed i; input_definition := input_definition i |}.

Definition with_parsed (p : list (string * pyval)) (i : Input) : Input :=
  {| script_name := script_name i; tokens := tokens i;
     is_run_input := is_run_input i; parameter_options := parameter_options i;
     parsed := p; input_definition := input_definition i |}.

(** The names injected for one supplied option. *)
Definition injected_names (o : Option) : list string :=
  String.append "--" (opt_name o) ::
  match opt_shortcut o with
  | Some sc => if String.eqb sc "" then [] else shortcut_parameters sc
  | None => []
  end.

Definition injected_all (definition : list Option) (l : list (string * pyval))
  : list string :=
  concat (map (fun '(n, v) =>
                 if truthy v then
                   match find_option definition n with
                   | Some o => injected_names o
                   | None => []
                   end
                 else []) l).

Definition set_all (l : list (string * pyval)) (p : list (string * pyval))
  : list (string * pyval) :=
  fold_left (fun acc '(n, v) => if truthy v then assoc_set n v acc else acc) l p.

Lemma with_params_twice (a b : list string) (i : Input) :
  with_params a (with_params b i) = with_params a i.
Proof. reflexivity. Qed.

Lemma add_parameter_options_fold (ps : list string) (i : Input) :
  fold_left (fun r p => add_parameter_option p r) ps i
  = with_params (parameter_options i ++ ps) i.
Proof.
  revert i; induction ps as [| p ps IH]; intros i; simpl.
  - rewrite app_nil_r. destruct i; reflexivity.
  - rewrite IH. simpl. rewrite <- app_assoc. reflexivity.
Qed.

Lemma inject_option_eq (o : Option) (i : Input) :
  inject_option o i = with_params (parameter_options i ++ injected_names o) i.
Proof.
  unfold inject_option, injected_names.
  destruct (opt_shortcut o) as [sc |].
  - destruct (String.eqb sc "").
    + destruct i; reflexivity.
    + rewrite add_parameter_options_fold. simpl. rewrite <- app_assoc. reflexivity.
  - destruct i; reflexivity.
Qed.

Lemma inject_fold_eq (definition : list Option) (l : list (string * pyval))
    (i : Input) :
  (forall n v, In (n, v) l -> truthy v = true -> find_option definition n <> None) ->
  fold_res (inject_step definition) l i
  = Ret (with_params (parameter_options i ++ injected_all definition l) i).
Proof.
  revert i; induction l as [| [n v] l IH]; intros i Hfind; simpl.
  - rewrite app_nil_r. destruct i; reflexivity.
  - unfold injected_all in *. simpl.
    destruct (truthy v) eqn:Hv.
    + destruct (find_option definition n) as [o |] eqn:Ho.
      * rewrite IH by (intros; apply (Hfind n0 v0); simpl; auto).
        rewrite inject_option_eq. simpl. rewrite <- ?app_assoc. reflexivity.
      * exfalso. apply (Hfind n v); simpl; auto.
    + rewrite IH by (intros; apply (Hfind n0 v0); simpl; auto). reflexivity.
Qed.

Lemma reset_fold_eq (l : list (string * pyval)) (i : Input) :
  (forall n v, In (n, v) l -> truthy v = true ->
     In n (map opt_name (input_definition i))) ->
  fold_res reset_step l i = Ret (with_parsed (set_all l (parsed i)) i).
Proof.
  revert i; induction l as [| [n v] l IH]; intros i Hin; simpl.
  - destruct i; reflexivity.
  - destruct (truthy v) eqn:Hv.
    + unfold set_option.
      assert (Hex : existsb (fun o => String.eqb (opt_name o) n) (input_definition i) = true).
      { apply existsb_exists. destruct (in_map_iff opt_name (input_definition i) n) as [H _].
        destruct (H (Hin n v (or_introl eq_refl) Hv)) as [o [Hon Ho]].
        exists o. split; [exact Ho | apply String.eqb_eq; exact Hon]. }
      rewrite Hex. rewrite IH by (intros; apply (Hin n0 v0); simpl; auto).
      reflexivity.
    + rewrite IH by (intros; apply (Hin n0 v0); simpl; auto). reflexivity.
Qed.

Lemma assoc_set_same {A : Type} (k : string) (v : A) (p : list (string * A)) :
  assoc k (assoc_set k v p) = Some v.
Proof.
  induction p as [| [k' v'] p IH]; simpl.
  - rewrite String.eqb_refl. reflexivity.
  - destruct (String.eqb k k') eqn:Hk; simpl.
    + rewrite String.eqb_refl. reflexivity.
    + rewrite Hk. exact IH.
Qed.

Lemma assoc_set_other {A : Type} (n k : string) (v : A) (p : list (string * A)) :
  n <> k -> assoc n (assoc_set k v p) = assoc n p.
Proof.
  intros Hne. induction p as [| [k' v'] p IH]; simpl.
  - apply String.eqb_neq in Hne. rewrite Hne. reflexivity.
  - destruct (String.eqb k k') eqn:Hk; simpl.
    + apply String.eqb_eq in Hk. subst k'.
      apply String.eqb_neq in Hne. rewrite Hne. reflexivity.
    + destruct (String.eqb n k'); [reflexivity | exact IH].
Qed.

Lemma set_all_other (n : string) (l p : list (string * pyval)) :
  ~ In n (map fst l) -> assoc n (set_all l p) = assoc n p.
Proof.
  revert p; induction l as [| [k v] l IH]; intros p Hn; simpl in *; [reflexivity |].
  rewrite IH by tauto.
  destruct (truthy v); [| reflexivity].
  apply assoc_set_other. intros ->. tauto.
Qed.

Lemma set_all_value (n : string) (v : pyval) (l p : list (string * pyval)) :
  NoDup (map fst l) -> In (n, v) l -> truthy v = true ->
  assoc n (set_all l p) = Some v.
Proof.
  revert p; induction l as [| [k w] l IH]; intros p Hnd Hin Hv; simpl in *;
    [contradiction |].
  inversion Hnd as [| ? ? Hk Hnd']; subst.
  destruct Hin as [Heq | Hin].
  - injection Heq as -> ->. rewrite Hv.
    rewrite set_all_other by exact Hk. apply assoc_set_same.
  - apply IH; assumption.
Qed.

Lemma options_fst (i : Input) :
  map fst (options i) = map opt_name (input_definition i).
Proof. unfold options. rewrite map_map. reflexivity. Qed.

Lemma options_value (n : string) (v : pyval) (i : Input) :
  assoc n (parsed i) = Some v -> In n (map opt_name (input_definition i)) ->
  assoc n (options i) = Some v.
Proof.
  unfold options. induction (input_definition i) as [| o d IH]; simpl;
    intros Hp Hin; [contradiction |].
  destruct (String.eqb n (opt_name o)) eqn:Hn.
  - apply String.eqb_eq in Hn. rewrite <- Hn, Hp. reflexivity.
  - apply IH; [exact Hp |]. destruct Hin as [Heq | Hin]; [| exact Hin].
    subst n. rewrite String.eqb_refl in Hn. discriminate.
Qed.

Lemma find_option_in (definition : list Option) (n : string) :
  In n (map opt_name definition) -> find_option definition n <> None.
Proof.
  unfold find_option. induction definition as [| o d IH]; simpl; intros Hin;
    [contradiction |].
  destruct (String.eqb (opt_name o) n) eqn:Hn; [discriminate |].
  apply IH. destruct Hin as [Heq | Hin]; [| exact Hin].
  rewrite Heq, String.eqb_refl in Hn. discriminate.
Qed.

Lemma find_option_nodup (definition : list Option) (o : Option) :
  NoDup (map opt_name definition) -> In o definition ->
  find_option definition (opt_name o) = Some o.
Proof.
  unfold find_option. induction definition as [| o' d IH]; simpl;
    intros Hnd Hin; [contradiction |].
  inversion Hnd as [| ? ? Ho' Hnd']; subst.
  destruct Hin as [-> | Hin].
  - rewrite String.eqb_refl. reflexivity.
  - destruct (String.eqb (opt_name o') (opt_name o)) eqn:Hn.
    + apply String.eqb_eq in Hn. exfalso. apply Ho'. rewrite Hn.
      apply in_map. exact Hin.
    + apply IH; assumption.
Qed.

Lemma options_in_definition (i : Input) (n : string) (v : pyval) :
  In (n, v) (options i) -> In n (map opt_name (input_definition i)).
Proof.
  intros H. rewrite <- options_fst. apply (in_map fst) in H. exact H.
Qed.

(** The rewrite, in closed form. *)
Lemma configure_io_run (parse : list Option -> Input -> list (string * pyval))
    (first_argument : Input -> option string) (definition : list Option)
    (i : Input) :
  first_argument (bind parse definition i) = Some "run" ->
  let input := bind parse definition i in
  let l := options input in
  let run1 := with_params (injected_all definition l)
                (mk_run_argv_input (app_name :: tokens input)) in
  configure_io parse first_argument definition i
  = Ret (with_parsed (set_all l (parse definition run1)) (bind parse definition run1)).
Proof.
  intros Hfirst. cbv zeta. unfold configure_io. cbv zeta. rewrite Hfirst.
  simpl String.eqb. cbv iota.
  rewrite inject_fold_eq.
  2:{ intros n v Hin _. apply find_option_in.
      apply options_in_definition in Hin. exact Hin. }
  simpl parameter_options. rewrite app_nil_l.
  rewrite reset_fold_eq; [reflexivity |].
  intros n v Hin _. apply options_in_definition in Hin. exact Hin.
Qed.

Lemma in_injected_all (definition : list Option) (l : list (string * pyval))
    (o : Option) (v : pyval) :
  NoDup (map opt_name definition) -> In o definition ->
  In (opt_name o, v) l -> truthy v = true ->
  incl (injected_names o) (injected_all definition l).
Proof.
  intros Hnd Ho Hin Hv x Hx. unfold injected_all. apply in_concat.
  eexists. split; [apply in_map_iff; exists (opt_name o, v); split; [reflexivity | exact Hin] |].
  rewrite Hv, (find_option_nodup definition o Hnd Ho). exact Hx.
Qed.

(** ** Application state and the orchestration monad *)

(** [Application.__init__]'s command names (the [COMMANDS] list). *)
Definition COMMANDS : list string :=
  ["about"; "add"; "build"; "check"; "config"; "init"; "install"; "lock";
   "new"; "publish"; "remove"; "run"; "search"; "show"; "sync"; "update";
   "version"; "cache clear"; "cache list"; "debug info"; "debug resolve";
   "env activate"; "env info"; "env list"; "env remove"; "env use";
   "self add"; "self install"; "self lock"; "self remove"; "self update";
   "self show"; "self show plugins"; "self sync"; "source add";
   "source remove"; "source show"].

(** Names known before any plugin: poetry's lazily loaded commands and
    cleo's own [help], [list] and [completions]. *)
Definition builtin_names : list string := COMMANDS ++ ["help"; "list"; "completions"].

Definition COMMAND_NOT_FOUND_PREFIX_MESSAGE : string :=
  "Looks like you're trying to use a Poetry command that is not available.".

Definition shell_message : string :=
"
Since <info>Poetry (<b>2.0.0</>)</>, the <c1>shell</> command is not installed by default. You can use,

  - the new <c1>env activate</> command (<b>recommended</>); or
  - the <c1>shell plugin</> to install the <c1>shell</> command

<b>Documentation:</> https://python-poetry.org/docs/managing-environments/#activating-the-environment

<warning>Note that the <c1>env activate</> command is not a direct replacement for <c1>shell</> command.
".

Definition COMMAND_NOT_FOUND_MESSAGES : list (string * string) :=
  [("shell", shell_message)].

(** The process working directory, the directories that exist, and the
    attributes of [Application] the orchestration reads and writes. *)
Record AppState := MkState {
  cwd : string;
  existing_dirs : list string;
  working_directory : string;
  project_dir : option string;
  disable_plugins : bool;
  disable_cache : bool;
  plugins_loaded : bool;
  registry : list string;
  activated_plugins : list string;
  plugin_paths : list string;
  poetry_cache : option nat;
  factory_log : list (string * bool * bool);
  err_lines : list string
}.

Definition set_cwd (c : string) (s : AppState) : AppState :=
  MkState c (existing_dirs s) (working_directory s) (project_dir s)
    (disable_plugins s) (disable_cache s) (plugins_loaded s) (registry s)
    (activated_plugins s) (plugin_paths s) (poetry_cache s) (factory_log s)
    (err_lines s).
Definition set_working_directory (w : string) (s : AppState) : AppState :=
  MkState (cwd s) (existing_dirs s) w (project_dir s)
    (disable_plugins s) (disable_cache s) (plugins_loaded s) (registry s)
    (activated_plugins s) (plugin_paths s) (poetry_cache s) (factory_log s)
    (err_lines s).
Definition set_project_dir (p : option string) (s : AppState) : AppState :=
  MkState (cwd s) (existing_dirs s) (working_directory s) p
    (disable_plugins s) (disable_cache s) (plugins_loaded s) (registry s)
    (activated_plugins s) (plugin_paths s) (poetry_cache s) (factory_log s)
    (err_lines s).
Definition set_disable_plugins (b : bool) (s : AppState) : AppState :=
  MkState (cwd s) (existing_dirs s) (working_directory s) (project_dir s)
    b (disable_cache s) (plugins_loaded s) (registry s)
    (activated_plugins s) (plugin_paths s) (poetry_cache s) (factory_log s)
    (err_lines s).
Definition set_disable_cache (b : bool) (s : AppState) : AppState :=
  MkState (cwd s) (existing_dirs s) (working_directory s) (project_dir s)
    (disable_plugins s) b (plugins_loaded s) (registry s)
    (activated_plugins s) (plugin_paths s) (poetry_cache s) (factory_log s)
    (err_lines s).
Definition set_plugins_loaded (b : bool) (s : AppState) : AppState :=
  MkState (cwd s) (existing_dirs s) (working_directory s) (project_dir s)
    (disable_plugins s) (disable_cache s) b (registry s)
    (activated_plugins s) (plugin_paths s) (poetry_cache s) (factory_log s)
    (err_lines s).
Definition set_plugins (reg act paths : list string) (s : AppState) : AppState :=
  MkState (cwd s) (existing_dirs s) (working_directory s) (project_dir s)
    (disable_plugins s) (disable_cache s) (plugins_loaded s) reg act paths
    (poetry_cache s) (factory_log s) (err_lines s).
Definition set_poetry (p : option nat) (log : list (string * bool * bool))
    (s : AppState) : AppState :=
  MkState (cwd s) (existing_dirs s) (working_directory s) (project_dir s)
    (disable_plugins s) (disable_cache s) (plugins_loaded s) (registry s)
    (activated_plugins s) (plugin_paths s) p log (err_lines s).
Definition set_err_lines (l : list string) (s : AppState) : AppState :=
  MkState (cwd s) (existing_dirs s) (working_directory s) (project_dir s)
    (disable_plugins s) (disable_cache s) (plugins_loaded s) (registry s)
    (activated_plugins s) (plugin_paths s) (poetry_cache s) (factory_log s) l.

(** [Application.__init__]: nothing parsed, nothing loaded. *)
Definition initial_state (process_cwd : string) (dirs : list string) : AppState :=
  MkState process_cwd dirs process_cwd None false false false builtin_names
    [] [] None [] [].

(** [Application.project_directory]. *)
Definition project_directory (s : AppState) : string :=
  match project_dir s with Some p => p | None => working_directory s end.

(** The phases of a run, as observed from outside (a write-only log). *)
Inductive Phase :=
| PhOptionsParsed
| PhPluginsLoaded (cwd_at_load : string)
| PhDirectoryScoped (path : string)
| PhDelegated
| PhDirectoryRestored.

(** State, Python exceptions (the state survives them) and the phase log. *)
Definition M (A : Type) : Type := AppState -> outcome A * AppState * list Phase.

Definition ret {A : Type} (a : A) : M A := fun s => (Ret a, s, []).

Definition bindM {A B : Type} (m : M A) (k : A -> M B) : M B :=
  fun s =>
    match m s with
    | (Ret a, s1, t1) =>
      match k a s1 with (o, s2, t2) => (o, s2, t1 ++ t2) end
    | (Exc e, s1, t1) => (Exc e, s1, t1)
    end.

Notation "x <- m ;; k" := (bindM m (fun x => k))
  (at level 61, m at next level, right associativity).
Notation "m ;; k" := (bindM m (fun _ => k)) (at level 61, right associativity).

Definition get : M AppState := fun s => (Ret s, s, []).
Definition modify (f : AppState -> AppState) : M unit := fun s => (Ret tt, f s, []).
Definition raise {A : Type} (e : exc) : M A := fun s => (Exc e, s, []).
Definition emit (p : Phase) : M unit := fun s => (Ret tt, s, [p]).

(** [try: m except: h]. *)
Definition try_except {A : Type} (m : M A) (h : exc -> M A) : M A :=
  fun s =>
    match m s with
    | (Ret a, s1, t1) => (Ret a, s1, t1)
    | (Exc e, s1, t1) => match h e s1 with (o, s2, t2) => (o, s2, t1 ++ t2) end
    end.

(** [try: m finally: f]. *)
Definition finally {A : Type} (m : M A) (f : M unit) : M A :=
  fun s =>
    match m s with
    | (o, s1, t1) =>
      match f s1 with
      | (Ret _, s2, t2) => (o, s2, t1 ++ t2)
      | (Exc e, s2, t2) => (Exc e, s2, t1 ++ t2)
      end
    end.

(** A state transformer that may raise, run as a step of [M]. *)
Definition lift {A : Type} (f : AppState -> outcome A * AppState) : M A :=
  fun s => match f s with (o, s1) => (o, s1, []) end.

Definition write_error_line (line : string) : M unit :=
  modify (fun s => set_err_lines (err_lines s ++ [line]) s).

(** ** Reading application options from the raw tokens (cleo's
    [ArgvInput.has_parameter_option] and [parameter_option]) *)

Definition leading (value : string) : string :=
  if String.prefix "--" value then String.append value "=" else value.

Definition matches_option (value token : string) : bool :=
  String.eqb token value ||
  (negb (String.eqb (leading value) "") && String.prefix (leading value) token).

Definition has_parameter_option (values toks : list string) : bool :=
  existsb (fun token => existsb (fun value => matches_option value token) values) toks.

(** [has_parameter_option(values, only_params=True)]: the search stops
    at the first [--] token. *)
Fixpoint has_parameter_option_params (values toks : list string) : bool :=
  match toks with
  | [] => false
  | token :: rest =>
    if String.eqb token "--" then false
    else existsb (fun value => matches_option value token) values
         || has_parameter_option_params values rest
  end.

(** cleo's [ArgvInput.parameter_option], for one token: the value
    option alone takes the next token ([None] when there is none); a token
    that starts with the option's leading text gives
    [token[len(leading)]], the one character that follows it, and raises
    [IndexError] when nothing follows it. *)
Fixpoint first_value (values : list string) (token : string) (rest : list string)
  : option (outcome pyval) :=
  match values with
  | [] => None
  | value :: vs =>
    if String.eqb token value then
      Some (Ret (match rest with t :: _ => VStr t | [] => VNone end))
    else if negb (String.eqb (leading value) "") && String.prefix (leading value) token
    then Some (match String.get (String.length (leading value)) token with
               | Some ch => Ret (VStr (String ch EmptyString))
               | None => Exc IndexError
               end)
    else first_value vs token rest
  end.

Fixpoint parameter_option (values : list string) (default : pyval)
    (toks : list string) : outcome pyval :=
  match toks with
  | [] => Ret default
  | token :: rest =>
    match first_value values token rest with
    | Some v => v
    | None => parameter_option values default rest
    end
  end.

(** [Application._option_get_value]. *)
Definition option_get_value (toks : list string) (name : string) (default : pyval)
  : outcome pyval :=
  match find_option app_definition name with
  | None => Ret default
  | Some o =>
    let values := String.append "--" (opt_name o) ::
                  match opt_shortcut o with
                  | Some sc => if String.eqb sc "" then [] else [String.append "-" sc]
                  | None => []
                  end in
    if negb (has_parameter_option values toks) then Ret default
    else if opt_flag o then Ret (VBool true)
    else parameter_option values default toks
  end.

Example option_get_value_directory :
  option_get_value ["-C"; "/tmp"; "about"] "directory" (VStr "/home") = Ret (VStr "/tmp") /\
  option_get_value ["--directory=/tmp"; "about"] "directory" (VStr "/home")
    = Ret (VStr "/") /\
  option_get_value ["-C/tmp"; "about"] "directory" (VStr "/home") = Ret (VStr "/") /\
  option_get_value ["--directory="; "about"] "directory" (VStr "/home") = Exc IndexError /\
  option_get_value ["about"] "directory" (VStr "/home") = Ret (VStr "/home").
Proof. repeat split; reflexivity. Qed.

(** [s.split(sep)] for a one-character separator: every occurrence
    cuts, and empty pieces are kept. *)
Fixpoint py_split_aux (sep : ascii) (s cur : string) : list string :=
  match s with
  | EmptyString => [cur]
  | String c r =>
    if Ascii.eqb c sep then cur :: py_split_aux sep r ""
    else py_split_aux sep r (String.append cur (String c EmptyString))
  end.

Definition py_split (sep : ascii) (s : string) : list string := py_split_aux sep s "".

(** [sep.join(parts)]. *)
Fixpoint py_join (sep : string) (parts : list string) : string :=
  match parts with
  | [] => ""
  | [x] => x
  | x :: r => String.append x (String.append sep (py_join sep r))
  end.

(** ** Paths *)

(** The components of a POSIX path, without the empty and [.] ones. *)
Definition path_parts (p : string) : list string :=
  filter (fun c => negb (String.eqb c "") && negb (String.eqb c "."))
         (py_split "/"%char p).

(** [str(Path(p))]: pathlib's normal form; repeated separators and [.]
    components go, [..] stays, exactly two leading slashes are kept, and
    the empty relative path is [.]. *)
Definition pure_path (p : string) : string :=
  let root := if String.prefix "//" p && negb (String.prefix "///" p) then "//"
              else if String.prefix "/" p then "/" else "" in
  match root, path_parts p with
  | EmptyString, [] => "."
  | _, parts => String.append root (py_join "/" parts)
  end.

(** The lexical reading of [..]: each one drops the component before it,
    and is dropped at the root. *)
Fixpoint resolve_parts (acc parts : list string) : list string :=
  match parts with
  | [] => rev acc
  | c :: r => if String.eqb c ".." then resolve_parts (tl acc) r
              else resolve_parts (c :: acc) r
  end.

(** [Path(p).resolve(strict=False)], and the directory [os.chdir(p)]
    enters, from the process directory [cwd] (which is absolute); the
    model has no symbolic links, so resolution is lexical. *)
Definition resolve_path (cwd p : string) : string :=
  let abs := if String.prefix "/" p then p else String.append cwd (String.append "/" p) in
  String.append "/" (py_join "/" (resolve_parts [] (path_parts abs))).

Example paths_normalise :
  pure_path "/tmp//x/./" = "/tmp/x" /\ pure_path "a/../b" = "a/../b" /\
  pure_path "" = "." /\ pure_path "//srv" = "//srv" /\
  resolve_path "/home/u" "../v/./w/" = "/home/v/w" /\
  resolve_path "/home/u" "/../tmp" = "/tmp" /\ resolve_path "/home/u" "." = "/home/u".
Proof. repeat split; reflexivity. Qed.

(** ** Directory helpers of [poetry.utils.helpers] *)

(** Modelled from the spec: [ensure_path(path, is_directory=True)] (not
    among the files read) returns [Path(path)] when it denotes an existing
    directory, relative paths being looked up from the process directory,
    and otherwise fails with an invalid-path error; a value that is not a
    string makes [Path(...)] raise [TypeError]. *)
Definition ensure_directory (v : pyval) : M string :=
  fun s =>
    match v with
    | VStr p =>
      let q := pure_path p in
      if existsb (String.eqb (resolve_path (cwd s) q)) (existing_dirs s) then (Ret q, s, [])
      else (Exc (InvalidPath q), s, [])
    | _ => (Exc TypeError, s, [])
    end.

(** Modelled from the spec: the [directory(path)] context manager (not
    among the files read) changes the process working directory
    ([os.chdir(path)]) for the duration of its body and unconditionally
    restores it afterwards, also when the body raises. *)
Definition directory {A : Type} (path : string) (body : M A) : M A :=
  s <- get ;;
  let saved := cwd s in
  modify (set_cwd (resolve_path saved path)) ;;
  emit (PhDirectoryScoped path) ;;
  finally body (modify (set_cwd saved) ;; emit PhDirectoryRestored).

(** [PurePosixPath.is_absolute]. *)
Definition is_absolute (p : string) : bool := String.prefix "/" p.

(** An option value read by [_option_get_value]: [IndexError] from
    [parameter_option] propagates. *)
Definition read_option (toks : list string) (name : string) (default : pyval) : M pyval :=
  fun s => (option_get_value toks name default, s, []).

(** [Application._configure_custom_application_options]; the final phase
    entry marks that the options have been read. *)
Definition configure_custom_application_options (toks : list string) : M unit :=
  s <- get ;;
  v <- read_option toks "no-plugins" (VBool (disable_plugins s)) ;;
  modify (set_disable_plugins (truthy v)) ;;
  s <- get ;;
  v <- read_option toks "no-cache" (VBool (disable_cache s)) ;;
  modify (set_disable_cache (truthy v)) ;;
  s <- get ;;
  v <- read_option toks "directory" (VStr (cwd s)) ;;
  wd <- ensure_directory v ;;
  modify (set_working_directory wd) ;;
  v <- read_option toks "project" VNone ;;
  (match v with
   | VStr p =>
     let pp := pure_path p in
     modify (set_project_dir (Some pp)) ;;
     s <- get ;;
     pd <- ensure_directory
             (VStr (if is_absolute pp then pp
                    else resolve_path (cwd s) (String.append wd (String.append "/" pp)))) ;;
     modify (set_project_dir (Some pd))
   | _ => modify (set_project_dir None)
   end) ;;
  emit PhOptionsParsed.

(** Modelled from the spec: an installed application plugin (its
    [PluginManager] is not among the files read) has an identifier, the
    commands its activation registers, and whether loading or activating
    it fails. *)
Record Plugin := {
  plugin_name : string;
  plugin_commands : list string;
  plugin_fails : bool
}.

(** Discovery deduplicates by identifier, keeping the first occurrence. *)
Fixpoint dedup_plugins_aux (seen : list string) (l : list Plugin) : list Plugin :=
  match l with
  | [] => []
  | p :: r =>
    if existsb (String.eqb (plugin_name p)) seen then dedup_plugins_aux seen r
    else p :: dedup_plugins_aux (plugin_name p :: seen) r
  end.

Definition dedup_plugins (l : list Plugin) : list Plugin := dedup_plugins_aux [] l.

(** The line logged for a plugin that failed and was skipped. *)
Definition plugin_failure_line (p : Plugin) : string :=
  String.append "Failed to activate plugin " (plugin_name p).

Section Orchestration.

(** The plugins installed under the application-plugin entry point. *)
Variable installed_plugins : list Plugin.

(** cleo's [Application._get_command_name] on the raw tokens. *)
Variable get_command_name : list string -> option string.

(** A resolved command's before-run dispatch and body: any change of the
    state (the process working directory included), any exit code, any
    exception. *)
Variable execute : string -> AppState -> outcome Z * AppState.

(** Modelled from the spec: [PluginManager.add_project_plugin_path],
    [load_plugins] and [activate(application)]: discovery of the
    installed plugins, deduplicated by identifier, and registration of
    their commands; a plugin that fails is logged and skipped. *)
Definition activate_plugins (project : string) : M unit :=
  let found := dedup_plugins installed_plugins in
  let ok := filter (fun p => negb (plugin_fails p)) found in
  let failed := filter plugin_fails found in
  modify (fun s =>
    set_err_lines (err_lines s ++ map plugin_failure_line failed)
      (set_plugins (registry s ++ concat (map plugin_commands ok))
                   (activated_plugins s ++ map plugin_name ok)
                   (plugin_paths s ++ [project]) s)).

(** [Application._load_plugins]. *)
Definition load_plugins (toks : list string) : M unit :=
  s <- get ;;
  if plugins_loaded s then ret tt
  else
    let dp := has_parameter_option ["--no-plugins"] toks in
    modify (set_disable_plugins dp) ;;
    (if dp then ret tt
     else s <- get ;;
          emit (PhPluginsLoaded (cwd s)) ;;
          activate_plugins (project_directory s)) ;;
    modify (set_plugins_loaded true).

(** cleo's [Application._run]: [--version]/[-V] before any [--] prints
    the long version (to standard output, not modelled) and returns 0;
    otherwise resolve the command name ([help] when there is none and
    [--help]/[-h] is given, else the default command [list]) and run it,
    or raise the command-not-found error. *)
Definition base_run (toks : list string) : M Z :=
  emit PhDelegated ;;
  if has_parameter_option_params ["--version"; "-V"] toks then ret 0
  else
    s <- get ;;
    let name := match get_command_name toks with
                | Some n => n
                | None => if has_parameter_option_params ["--help"; "-h"] toks
                          then "help" else "list"
                end in
    if existsb (String.eqb name) (registry s) then lift (execute name)
    else raise (CommandNotFound name).

(** Lines 251-264: the [try]/[except CleoCommandNotFoundError] block. *)
Definition guarded_run (toks : list string) : M Z :=
  try_except (base_run toks) (fun e =>
    match e with
    | CommandNotFound _ =>
      match get_command_name toks with
      | Some command =>
        match assoc command COMMAND_NOT_FOUND_MESSAGES with
        | Some message =>
          if String.eqb message "" then raise e
          else write_error_line "" ;;
               write_error_line COMMAND_NOT_FOUND_PREFIX_MESSAGE ;;
               write_error_line message ;;
               ret 1
        | None => raise e
        end
      | None => raise e
      end
    | _ => raise e
    end).

(** [Application._run]. *)
Definition app_run (toks : list string) : M Z :=
  configure_custom_application_options toks ;;
  load_plugins toks ;;
  s <- get ;;
  directory (working_directory s) (guarded_run toks).

(** [Factory().create_poetry(cwd=..., ...)] fails for these project
    directories. *)
Variable create_poetry_fails : string -> bool.

(** The [poetry] property: the instance built by the [n]-th factory call
    is identified by [n]. *)
Definition poetry : M nat :=
  s <- get ;;
  match poetry_cache s with
  | Some p => ret p
  | None =>
    let call := (project_directory s, disable_plugins s, disable_cache s) in
    let p := length (factory_log s) in
    modify (fun s => set_poetry (poetry_cache s) (factory_log s ++ [call]) s) ;;
    if create_poetry_fails (project_directory s) then raise PoetryError
    else modify (fun s => set_poetry (Some p) (factory_log s) s) ;; ret p
  end.

(** [Application.reset_poetry]. *)
Definition reset_poetry : M unit :=
  modify (fun s => set_poetry None (factory_log s) s).

End Orchestration.

(** ** Observing a step: its final state and its phase log *)

Definition st_of {A : Type} (r : outcome A * AppState * list Phase) : AppState :=
  let '(_, s, _) := r in s.

(** A step that leaves the process working directory alone. *)
Definition keeps_cwd {A : Type} (m : M A) : Prop := forall s, cwd (st_of (m s)) = cwd s.

(** Every cached instance was built by an earlier factory call. *)
Definition poetry_wf (s : AppState) : Prop :=
  forall p, poetry_cache s = Some p -> (p < length (factory_log s))%nat.

(** ** The before-run listeners *)

(** A console command as the listeners see it: its class (a
    [poetry.console.commands.command.Command], an [EnvCommand], a
    [SelfCommand], an [InstallerCommand]) and its bound environment and
    installer. *)
Record Command := {
  cmd_name : string;
  is_poetry_command : bool;
  is_env_command : bool;
  is_self_command : bool;
  is_installer_command : bool;
  cmd_env : option nat;
  cmd_installer : option nat;
  cmd_loggers : list string
}.

Definition set_env (e : nat) (c : Command) : Command :=
  {| cmd_name := cmd_name c; is_poetry_command := is_poetry_command c;
     is_env_command := is_env_command c; is_self_command := is_self_command c;
     is_installer_command := is_installer_command c; cmd_env := Some e;
     cmd_installer := cmd_installer c; cmd_loggers := cmd_loggers c |}.

Definition set_installer (i : nat) (c : Command) : Command :=
  {| cmd_name := cmd_name c; is_poetry_command := is_poetry_command c;
     is_env_command := is_env_command c; is_self_command := is_self_command c;
     is_installer_command := is_installer_command c; cmd_env := cmd_env c;
     cmd_installer := Some i; cmd_loggers := cmd_loggers c |}.

Section Listeners.

(** [EnvManager(poetry, io=io).create_venv()] for a command. *)
Variable create_venv : Command -> nat.
(** [Installer(io, command.env, poetry.package, ...)] for a command. *)
Variable make_installer : Command -> nat.

(** [Application.register_command_loggers]: it configures the logging
    module and leaves the command object as it is. *)
Definition register_command_loggers (c : Command) : Command := c.

(** [Application.configure_env]. *)
Definition configure_env (c : Command) : Command :=
  if negb (is_env_command c) || is_self_command c then c
  else match cmd_env c with
       | Some _ => c
       | None => set_env (create_venv c) c
       end.

(** [Application.configure_installer_for_event] and
    [configure_installer_for_command]. *)
Definition configure_installer_for_event (c : Command) : Command :=
  if negb (is_installer_command c) then c
  else match cmd_installer c with
       | Some _ => c
       | None => set_installer (make_installer c) c
       end.

(** The [COMMAND] event, dispatched to the listeners in registration
    order. *)
Definition dispatch_command_event (c : Command) : Command :=
  configure_installer_for_event (configure_env (register_command_loggers c)).

End Listeners.

(** ** [load_command]: the module and class a command name resolves to *)

Definition is_upper (c : ascii) : bool :=
  (Nat.leb 65 (nat_of_ascii c) && Nat.leb (nat_of_ascii c) 90)%bool.
Definition is_lower (c : ascii) : bool :=
  (Nat.leb 97 (nat_of_ascii c) && Nat.leb (nat_of_ascii c) 122)%bool.
Definition is_cased (c : ascii) : bool := is_upper c || is_lower c.
Definition to_upper (c : ascii) : ascii :=
  if is_lower c then ascii_of_nat (nat_of_ascii c - 32) else c.
Definition to_lower (c : ascii) : ascii :=
  if is_upper c then ascii_of_nat (nat_of_ascii c + 32) else c.

(** [str.title()] on ASCII text: a letter is upper-cased when the
    character before it is not a letter and lower-cased otherwise. *)
Fixpoint py_title_aux (prev_cased : bool) (s : string) : string :=
  match s with
  | EmptyString => EmptyString
  | String c r =>
    String (if is_cased c then if prev_cased then to_lower c else to_upper c else c)
           (py_title_aux (is_cased c) r)
  end.

Definition py_title (s : string) : string := py_title_aux false s.

(** [load_command(name)]: the module [_load] imports, and the class it
    takes from it. *)
Definition load_command_module (name : string) : string :=
  String.append "poetry.console.commands." (py_join "." (py_split " "%char name)).
Definition load_command_class (name : string) : string :=
  String.append (String.concat "" (map py_title (py_split " "%char name))) "Command".

(** A name with each space replaced by a dot. *)
Fixpoint dots (s : string) : string :=
  match s with
  | EmptyString => EmptyString
  | String c r => String (if Ascii.eqb c " "%char then "."%char else c) (dots r)
  end.

(** Whether a list of strings has no duplicate. *)
Fixpoint nodupb (l : list string) : bool :=
  match l with
  | [] => true
  | x :: r => negb (existsb (String.eqb x) r) && nodupb r
  end.

(** A piece of a shortcut string as cleo stores it: non-empty, without
    [|], and not starting with [-]. *)
Definition good_piece (p : string) : Prop :=
  p <> "" /\ ~ In "|"%char (list_ascii_of_string p) /\ (forall r, p <> String "-" r).

(** ** [register_command_loggers]: the logging calls it makes *)

(** cleo's verbosity levels, in increasing order. *)
Inductive Verbosity := QUIET | NORMAL | VERBOSE | VERY_VERBOSE | DEBUG.

Definition verbosity_value (v : Verbosity) : Z :=
  match v with
  | QUIET => 16 | NORMAL => 32 | VERBOSE => 64 | VERY_VERBOSE => 128 | DEBUG => 256
  end.

(** cleo's [IO.is_verbose], [is_very_verbose] and [is_debug]. *)
Definition is_verbose (v : Verbosity) : bool := 64 <=? verbosity_value v.
Definition is_very_verbose (v : Verbosity) : bool := 128 <=? verbosity_value v.
Definition is_debug (v : Verbosity) : bool := 256 <=? verbosity_value v.

(** The levels of the [logging] module. *)
Definition logging_DEBUG : Z := 10.
Definition logging_INFO : Z := 20.
Definition logging_WARNING : Z := 30.

(** The calls into [logging]: [basicConfig(level=...)], the
    [POETRY_FILTER] added to the handler, and [logger.setLevel]. *)
Inductive LogCall :=
| BasicConfig (level : Z)
| AddPoetryFilter
| SetLevel (logger : string) (level : Z).

Definition fixed_loggers : list string :=
  ["poetry.packages.locker"; "poetry.packages.package"; "poetry.utils.password_manager"].

(** [Application.register_command_loggers] for a command run at a
    verbosity: the calls it makes, in order. *)
Definition command_logger_calls (c : Command) (v : Verbosity) : list LogCall :=
  if negb (is_poetry_command c) then []
  else
    let loggers := fixed_loggers ++ cmd_loggers c in
    let level := if is_debug v then logging_DEBUG
                 else if is_very_verbose v || is_verbose v then logging_INFO
                 else logging_WARNING in
    BasicConfig level ::
    (if negb (is_very_verbose v) then [AddPoetryFilter] else []) ++
    map (fun name =>
           SetLevel name
             (if String.prefix "poetry.core.masonry.builders" name && (logging_INFO <? level)
              then logging_INFO else level))
        loggers.

(** ** Sample bindings for the orchestration *)

(** An installed plugin registering one command. *)
Definition sample_plugin : Plugin :=
  {| plugin_name := "poetry-plugin-export"; plugin_commands := ["export"]; plugin_fails := false |}.

(** The last token names the command. *)
Definition sample_command_name (toks : list string) : option string :=
  match rev toks with t :: _ => Some t | [] => None end.

Definition factory_never_fails (project : string) : bool := false.

(** poetry's [build] command with its [loggers]. *)
Definition sample_build_command : Command :=
  {| cmd_name := "build"; is_poetry_command := true; is_env_command := true;
     is_self_command := false; is_installer_command := false;
     cmd_env := None; cmd_installer := None;
     cmd_loggers := ["poetry.core.masonry.builders.builder";
                     "poetry.core.masonry.builders.sdist";
                     "poetry.core.masonry.builders.wheel"] |}.

Definition sample_execute (name : string) (s : AppState) : outcome Z * AppState :=
  (Ret 0, s).

Definition sample_state : AppState := initial_state "/home/u" ["/home/u"; "/tmp"].

Lemma keeps_bind {A B : Type} (m : M A) (k : A -> M B) :
  keeps_cwd m -> (forall a, keeps_cwd (k a)) -> keeps_cwd (bindM m k).
Proof.
  intros Hm Hk s. unfold bindM. specialize (Hm s).
  destruct (m s) as [[o s1] t1]. destruct o as [a | e]; simpl in *; [| exact Hm].
  specialize (Hk a s1). destruct (k a s1) as [[o2 s2] t2]. simpl in *. congruence.
Qed.

Lemma keeps_ret {A : Type} (a : A) : keeps_cwd (ret a).
Proof. intros s. reflexivity. Qed.
Lemma keeps_get : keeps_cwd get.
Proof. intros s. reflexivity. Qed.
Lemma keeps_emit (p : Phase) : keeps_cwd (emit p).
Proof. intros s. reflexivity. Qed.
Lemma keeps_raise {A : Type} (e : exc) : keeps_cwd (@raise A e).
Proof. intros s. reflexivity. Qed.
Lemma keeps_modify (f : AppState -> AppState) :
  (forall s, cwd (f s) = cwd s) -> keeps_cwd (modify f).
Proof. intros Hf s. apply Hf. Qed.
Lemma keeps_ensure (v : pyval) : keeps_cwd (ensure_directory v).
Proof.
  intros s. unfold ensure_directory.
  destruct v; [reflexivity | | reflexivity].
  destruct (existsb _ _); reflexivity.
Qed.

Create HintDb keeps.
#[local] Hint Resolve keeps_ret keeps_get keeps_emit keeps_raise keeps_ensure : keeps.
#[local] Hint Extern 1 (keeps_cwd (modify _)) =>
  apply keeps_modify; intros; reflexivity : keeps.

Ltac keeps_step :=
  first
    [ apply keeps_bind; intros
    | progress (eauto with keeps)
    | match goal with
      | |- keeps_cwd (if ?b then _ else _) => destruct b
      | |- keeps_cwd (match ?x with _ => _ end) => destruct x
      end ].

Lemma keeps_configure (toks : list string) :
  keeps_cwd (configure_custom_application_options toks).
Proof. unfold configure_custom_application_options. repeat keeps_step. Qed.

Lemma keeps_load_plugins (installed : list Plugin) (toks : list string) :
  keeps_cwd (load_plugins installed toks).
Proof. unfold load_plugins, activate_plugins. repeat keeps_step. Qed.

(** [directory] restores the working directory whatever its body does. *)
Lemma directory_restores {A : Type} (path : string) (body : M A) :
  keeps_cwd (directory path body).
Proof.
  intros s. unfold directory, bindM, get, modify, emit, finally. simpl.
  destruct (body (set_cwd (resolve_path (cwd s) path) s)) as [[o s1] t1]. reflexivity.
Qed.









Lemma configure_env_bound (create_venv : Command -> nat) (c : Command) :
  cmd_env c <> None -> configure_env create_venv c = c.
Proof.
  intros H. unfold configure_env.
  destruct (negb (is_env_command c) || is_self_command c); [reflexivity |].
  destruct (cmd_env c); [reflexivity | contradiction].
Qed.

Lemma configure_installer_bound (make_installer : Command -> nat) (c : Command) :
  cmd_installer c <> None -> configure_installer_for_event make_installer c = c.
Proof.
  intros H. unfold configure_installer_for_event.
  destruct (negb (is_installer_command c)); [reflexivity |].
  destruct (cmd_installer c); [reflexivity | contradiction].
Qed.

Lemma configure_env_installer (create_venv : Command -> nat) (c : Command) :
  cmd_installer (configure_env create_venv c) = cmd_installer c.
Proof.
  unfold configure_env.
  destruct (negb (is_env_command c) || is_self_command c); [reflexivity |].
  destruct (cmd_env c); reflexivity.
Qed.

Lemma configure_installer_env (make_installer : Command -> nat) (c : Command) :
  cmd_env (configure_installer_for_event make_installer c) = cmd_env c.
Proof.
  unfold configure_installer_for_event.
  destruct (negb (is_installer_command c)); [reflexivity |].
  destruct (cmd_installer c); reflexivity.
Qed.

(** ** Sample bindings used to exercise the rewrite on concrete inputs *)

(** [poetry --no-cache -C /tmp run echo --no-cache]: the outer parse binds
    [--no-cache] and [--directory /tmp]; the run input's own parse binds
    nothing. *)
Definition sample_parse (definition : list Option) (i : Input)
  : list (string * pyval) :=
  if is_run_input i then []
  else [("no-cache", VBool true); ("directory", VStr "/tmp")].

(** [poetry -v run echo]: the outer parse binds [--verbose]. *)
Definition verbose_parse (definition : list Option) (i : Input)
  : list (string * pyval) :=
  if is_run_input i then [] else [("verbose", VBool true)].

Definition run_first_argument (i : Input) : option string := Some "run".

Definition argv_input (toks : list string) : Input :=
  {| script_name := app_name; tokens := toks; is_run_input := false;
     parameter_options := []; parsed := []; input_definition := [] |}.

Lemma app_definition_nodup : NoDup (map opt_name app_definition).
Proof.
  repeat constructor; simpl; intros H;
    repeat (destruct H as [H | H]; [discriminate H |]); exact H.
Qed.

End Console.

(* ================================================================== *)
(** * Properties *)
(* ================================================================== *)

Module CompatClaims.
Import Compat.

(** C9 (as amended): for a [str] input [decode] returns it unchanged and
    for a [bytes] input [encode] returns it unchanged; when every name of
    the effective encodings list is a known codec whose strict calls fail
    only with [UnicodeDecodeError]/[UnicodeEncodeError] and whose
    [errors="ignore"] calls do not raise (the case of the default list
    ["utf-8", "latin1", "ascii"]), [decode] of bytes returns a [str] and
    [encode] of a str returns [bytes] without raising, [decode] falling
    back to the first encoding with [errors="ignore"] when every listed
    encoding fails. *)
Theorem compat_helpers_total (registry : String.string -> option codec)
    (encodings : option (list String.string)) :
  Forall (reliable registry) (effective_encodings encodings) ->
  (forall s, decode registry (PStr s) encodings = Ok (PStr s)) /\
  (forall b, encode registry (PBytes b) encodings = Ok (PBytes b)) /\
  (forall b, exists s, decode registry (PBytes b) encodings = Ok (PStr s)) /\
  (forall s, exists b, encode registry (PStr s) encodings = Ok (PBytes b)) /\
  (forall b e0 es c0 s0,
     effective_encodings encodings = e0 :: es -> registry e0 = Some c0 ->
     dec_ignore c0 b = Ok s0 ->
     Forall (fun e => exists c err, registry e = Some c /\ dec_strict c b = Raise err /\
                                    suppressed err = true) (e0 :: es) ->
     decode registry (PBytes b) encodings = Ok (PStr s0)).
Proof.
  intros Hk.
  pose proof (effective_encodings_nonempty encodings) as Hne.
  destruct (effective_encodings encodings) as [| e0 es] eqn:He;
    [contradiction |].
  pose proof (Forall_inv Hk) as (c0 & Hc0 & _ & Hdi & _ & Hei).
  split; [reflexivity |]. split; [reflexivity |]. split; [| split].
  - intros b. unfold decode. rewrite He.
    destruct (try_decode_known registry (e0 :: es) b Hk) as [o Ho].
    rewrite Ho. destruct o as [s |]; [eauto |]. rewrite Hc0.
    destruct (Hdi b) as [s Hs]. rewrite Hs. eauto.
  - intros s. unfold encode. rewrite He.
    destruct (try_encode_known registry (e0 :: es) s Hk) as [o Ho].
    rewrite Ho. destruct o as [b |]; [eauto |]. rewrite Hc0.
    destruct (Hei s) as [b Hb]. rewrite Hb. eauto.
  - intros b e0' es' c0' s0 Heq Hc0' Hs0 Hall.
    injection Heq as <- <-. rewrite Hc0 in Hc0'. injection Hc0' as <-.
    unfold decode. rewrite He, (try_decode_all_fail registry _ b Hall), Hc0, Hs0.
    reflexivity.
Qed.

Lemma compat_helpers_total_witness :
  Forall (reliable std_registry) (effective_encodings None) /\
  exists s, decode std_registry (PBytes [0xFF; 0x41]) None = Ok (PStr s).
Proof.
  split; [exact default_encodings_reliable |].
  exact (proj1 (proj2 (proj2 (compat_helpers_total std_registry None
                                default_encodings_reliable)))
          [0xFF; 0x41]).
Defined.

(** C9 counterexample: the helpers do not suppress every error.  An
    unknown encoding name makes both raise [LookupError], and CPython's
    known [undefined] codec makes both raise [UnicodeError], even when a
    working encoding follows it in the list. *)
Lemma compat_helpers_unsuppressed_errors :
  decode std_registry (PBytes [0x61]) (Some ["nonexistent"])
    = Raise (LookupError "nonexistent") /\
  encode std_registry (PStr [0x61]) (Some ["nonexistent"])
    = Raise (LookupError "nonexistent") /\
  decode std_registry (PBytes [0x61]) (Some ["undefined"; "utf-8"]) = Raise UnicodeError /\
  encode std_registry (PStr [0x61]) (Some ["undefined"; "utf-8"]) = Raise UnicodeError /\
  std_registry "undefined" <> None.
Proof. repeat split; try reflexivity. discriminate. Qed.

(** C10: with the default encodings, every str encodable in UTF-8 survives
    [decode(encode(s))]: [encode] produces its UTF-8 bytes and [decode]
    reads them back with the first-tried UTF-8 codec. *)
Theorem decode_encode_utf8_roundtrip (s : pystr) :
  utf8_encode s <> None ->
  exists b, encode std_registry (PStr s) None = Ok (PBytes b) /\
            decode std_registry (PBytes b) None = Ok (PStr s).
Proof.
  intros Henc. destruct (utf8_encode s) as [b |] eqn:Hb; [| contradiction].
  exists b. split.
  - unfold encode, effective_encodings, default_encodings.
    simpl try_encode. rewrite Hb. reflexivity.
  - unfold decode, effective_encodings, default_encodings.
    simpl try_decode. rewrite (utf8_decode_encode s b Hb). reflexivity.
Qed.

Lemma decode_encode_utf8_roundtrip_witness :
  utf8_encode [0x48; 0xE9; 0x20AC; 0x1F600] <> None /\
  exists b, encode std_registry (PStr [0x48; 0xE9; 0x20AC; 0x1F600]) None
              = Ok (PBytes b) /\
            decode std_registry (PBytes b) None
              = Ok (PStr [0x48; 0xE9; 0x20AC; 0x1F600]).
Proof.
  split; [vm_compute; discriminate |].
  apply decode_encode_utf8_roundtrip. vm_compute. discriminate.
Defined.

End CompatClaims.

Module ConsoleClaims.
Import Console.

(** C1: when the first argument is [run], the active input becomes a
    [RunArgvInput] whose script name is the application name and whose
    tokens are the original raw tokens; its options are those of a
    permissive re-bind against the full definition, on which every option
    the original binding holds with a truthy value is set again to that
    value. *)
Theorem run_input_rewrite (parse : list Option -> Input -> list (string * pyval))
    (first_argument : Input -> option string) (definition : list Option)
    (i : Input) :
  NoDup (map opt_name definition) ->
  first_argument (bind parse definition i) = Some "run" ->
  exists r run_view,
    configure_io parse first_argument definition i = Ret r /\
    script_name run_view = app_name /\ tokens run_view = tokens i /\
    is_run_input r = true /\ script_name r = app_name /\ tokens r = tokens i /\
    input_definition r = definition /\
    parsed r = set_all (options (bind parse definition i)) (parse definition run_view) /\
    (forall n v, In (n, v) (options (bind parse definition i)) -> truthy v = true ->
       assoc n (options r) = Some v).
Proof.
  intros Hnd Hfirst.
  rewrite (configure_io_run parse first_argument definition i Hfirst).
  set (l := options (bind parse definition i)).
  set (run1 := with_params (injected_all definition l)
                 (mk_run_argv_input (app_name :: tokens (bind parse definition i)))).
  exists (with_parsed (set_all l (parse definition run1)) (bind parse definition run1)),
         run1.
  repeat split; try reflexivity.
  intros n v Hin Hv. apply options_value.
  - apply set_all_value; [| exact Hin | exact Hv].
    unfold l. rewrite options_fst. exact Hnd.
  - apply options_in_definition in Hin. exact Hin.
Qed.

Lemma run_input_rewrite_witness :
  exists r,
    configure_io sample_parse run_first_argument app_definition
      (argv_input ["--no-cache"; "-C"; "/tmp"; "run"; "echo"; "--no-cache"]) = Ret r /\
    tokens r = ["--no-cache"; "-C"; "/tmp"; "run"; "echo"; "--no-cache"] /\
    assoc "no-cache" (options r) = Some (VBool true) /\
    assoc "directory" (options r) = Some (VStr "/tmp").
Proof.
  destruct (run_input_rewrite sample_parse run_first_argument app_definition
              (argv_input ["--no-cache"; "-C"; "/tmp"; "run"; "echo"; "--no-cache"])
              app_definition_nodup eq_refl)
    as (r & run_view & Hr & _ & _ & _ & _ & Htok & _ & _ & Hval).
  exists r. split; [exact Hr |]. split; [exact Htok |]. split.
  - apply Hval; [vm_compute; auto 20 | reflexivity].
  - apply Hval; [vm_compute; auto 20 | reflexivity].
Defined.

(** C6 (as amended): when an option supplied with a truthy value declares
    a non-empty shortcut string, the rewritten input's recognised-parameter
    list contains its long form and every piece of the shortcut string:
    the string, stripped of leading dashes, is cut at each [|] (which
    swallows one following [-]), empty pieces are dropped and each piece is
    injected as ["-" + piece]; for ["-x|-y"] these are [-x] and [-y]. *)
Theorem run_shortcut_injection (parse : list Option -> Input -> list (string * pyval))
    (first_argument : Input -> option string) (definition : list Option)
    (i : Input) (o : Option) (v : pyval) (sc : string) :
  NoDup (map opt_name definition) -> In o definition ->
  opt_shortcut o = Some sc -> sc <> "" ->
  first_argument (bind parse definition i) = Some "run" ->
  In (opt_name o, v) (options (bind parse definition i)) -> truthy v = true ->
  shortcut_parameters "-x|-y" = ["-x"; "-y"] /\
  exists r, configure_io parse first_argument definition i = Ret r /\
    incl (String.append "--" (opt_name o) :: shortcut_parameters sc)
         (parameter_options r).
Proof.
  intros Hnd Ho Hsc Hne Hfirst Hin Hv. split; [reflexivity |].
  rewrite (configure_io_run parse first_argument definition i Hfirst).
  eexists. split; [reflexivity |].
  unfold with_parsed, bind, with_params. cbn [parameter_options].
  replace (String.append "--" (opt_name o) :: shortcut_parameters sc)
    with (injected_names o).
  2:{ unfold injected_names. rewrite Hsc.
      apply String.eqb_neq in Hne. rewrite Hne. reflexivity. }
  eapply in_injected_all; eassumption.
Qed.

Lemma run_shortcut_injection_witness :
  exists r,
    configure_io verbose_parse run_first_argument app_definition
      (argv_input ["-v"; "run"; "echo"]) = Ret r /\
    incl ["--verbose"; "-v"; "-vv"; "-vvv"] (parameter_options r).
Proof.
  assert (Ho : In (flag_option "verbose" (Some "v|vv|vvv")) app_definition).
  { simpl. auto 20. }
  destruct (run_shortcut_injection verbose_parse run_first_argument app_definition
              (argv_input ["-v"; "run"; "echo"])
              (flag_option "verbose" (Some "v|vv|vvv")) (VBool true) "v|vv|vvv"
              app_definition_nodup Ho eq_refl ltac:(discriminate) eq_refl
              ltac:(vm_compute; auto 20) eq_refl) as [_ H].
  exact H.
Defined.

(** C6 counterexample: the shortcut string ["v|vv|vvv"] of cleo's
    [--verbose] option is cut into the pieces [v], [vv] and [vvv], and
    [-vv] and [-vvv] are injected whole, not as single-character
    shortcuts. *)
Lemma run_shortcut_multichar :
  match configure_io verbose_parse run_first_argument app_definition
          (argv_input ["-v"; "run"; "echo"]) with
  | Ret r => parameter_options r
  | Exc _ => []
  end = ["--verbose"; "-v"; "-vv"; "-vvv"] /\
  String.length "-vv" <> 2%nat.
Proof. split; [vm_compute; reflexivity | discriminate]. Qed.

(** C2: when the requested command name [n] is not registered, command
    resolution raises the command-not-found error for [n]; the handler
    around it re-raises that error unless [n] has a message in
    [COMMAND_NOT_FOUND_MESSAGES] (only [shell], whose message is
    non-empty), in which case it writes an empty line, the fixed prefix
    message and the tailored message to the error output and returns the
    exit code 1; this holds when [--version]/[-V] is not among the
    tokens before [--], which otherwise make cleo return 0 before any
    command is resolved. *)
Theorem not_found_override (get_command_name : list string -> option string)
    (execute : string -> AppState -> outcome Z * AppState)
    (toks : list string) (s : AppState) (n : string) :
  has_parameter_option_params ["--version"; "-V"] toks = false ->
  get_command_name toks = Some n ->
  existsb (String.eqb n) (registry s) = false ->
  base_run get_command_name execute toks s
    = (Exc (CommandNotFound n), s, [PhDelegated]) /\
  assoc "shell" COMMAND_NOT_FOUND_MESSAGES = Some shell_message /\
  guarded_run get_command_name execute toks s
    = match assoc n COMMAND_NOT_FOUND_MESSAGES with
      | Some message =>
        (Ret 1,
         set_err_lines
           (err_lines s ++ [""; COMMAND_NOT_FOUND_PREFIX_MESSAGE; message]) s,
         [PhDelegated])
      | None => (Exc (CommandNotFound n), s, [PhDelegated])
      end.
Proof.
  intros Hv Hn Hreg.
  unfold guarded_run, try_except, base_run, bindM, emit, get, raise.
  cbn beta iota. rewrite Hv, Hn. cbn beta iota. rewrite Hreg. split; [reflexivity |].
  split; [reflexivity |].
  unfold COMMAND_NOT_FOUND_MESSAGES, assoc.
  destruct (String.eqb n "shell"); [| reflexivity].
  replace (String.eqb shell_message "") with false by reflexivity.
  unfold write_error_line, modify, ret. cbn.
  rewrite <- !app_assoc. reflexivity.
Qed.

Lemma not_found_override_witness :
  guarded_run sample_command_name sample_execute ["shell"] sample_state
  = (Ret 1,
     set_err_lines ["";
       COMMAND_NOT_FOUND_PREFIX_MESSAGE; shell_message] sample_state,
     [PhDelegated]).
Proof.
  destruct (not_found_override sample_command_name sample_execute ["shell"]
              sample_state "shell" eq_refl eq_refl eq_refl) as (_ & _ & H).
  exact H.
Defined.

(** C2 counterexample: [poetry -V shell] names the unregistered command
    [shell], which has a tailored message, yet the run returns 0 without
    raising and without writing to the error output, since cleo answers
    [-V] before resolving any command. *)
Lemma version_skips_not_found :
  sample_command_name ["-V"; "shell"] = Some "shell" /\
  existsb (String.eqb "shell") (registry sample_state) = false /\
  assoc "shell" COMMAND_NOT_FOUND_MESSAGES = Some shell_message /\
  guarded_run sample_command_name sample_execute ["-V"; "shell"] sample_state
  = (Ret 0, sample_state, [PhDelegated]).
Proof. repeat split; vm_compute; reflexivity. Qed.

(** C3: whatever the command does (it may change the process working
    directory, fail or raise) and whether the option handling succeeds,
    the process working directory after [_run] is the one before it. *)
Theorem run_restores_cwd (installed_plugins : list Plugin)
    (get_command_name : list string -> option string)
    (execute : string -> AppState -> outcome Z * AppState)
    (toks : list string) (s : AppState) :
  cwd (st_of (app_run installed_plugins get_command_name execute toks s)) = cwd s.
Proof.
  revert s. change (keeps_cwd (app_run installed_plugins get_command_name execute toks)).
  unfold app_run.
  apply keeps_bind; [apply keeps_configure | intros _].
  apply keeps_bind; [apply keeps_load_plugins | intros _].
  apply keeps_bind; [apply keeps_get | intros s'].
  apply directory_restores.
Qed.




(** C5: a successful access of the [poetry] property caches its instance:
    a second access returns the same instance without calling the factory
    (no new factory call and no state change), the first access called the
    factory at most once, and after [reset_poetry] the next access calls
    the factory once more and, if it succeeds, returns a new instance. *)
Theorem poetry_memoized (create_poetry_fails : string -> bool)
    (s s1 : AppState) (p : nat) (t : list Phase) :
  poetry_wf s ->
  poetry create_poetry_fails s = (Ret p, s1, t) ->
  poetry create_poetry_fails s1 = (Ret p, s1, []) /\
  (length (factory_log s1) <= S (length (factory_log s)))%nat /\
  forall o s2 t2,
    poetry create_poetry_fails (st_of (reset_poetry s1)) = (o, s2, t2) ->
    length (factory_log s2) = S (length (factory_log s1)) /\
    forall q, o = Ret q -> q <> p.
Proof.
  intros Hwf H.
  unfold poetry, reset_poetry, bindM, get, ret, modify, raise in *. cbn in H |- *.
  destruct (poetry_cache s) as [p0 |] eqn:Hc.
  - injection H as <- <- <-. rewrite Hc.
    specialize (Hwf p0 Hc).
    split; [reflexivity |]. split; [lia |].
    intros o s2 t2 H2.
    destruct (create_poetry_fails _); injection H2 as <- <- <-; cbn;
      rewrite length_app; cbn; split; try lia.
    + intros q Hq. discriminate.
    + intros q Hq. injection Hq as <-. lia.
  - destruct (create_poetry_fails _); [discriminate |].
    injection H as <- <- <-. cbn.
    split; [reflexivity |]. rewrite length_app. cbn. split; [lia |].
    intros o s2 t2 H2.
    destruct (create_poetry_fails _); injection H2 as <- <- <-; cbn;
      rewrite !length_app; cbn; split; try lia.
    + intros q Hq. discriminate.
    + intros q Hq. injection Hq as <-. lia.
Qed.

Lemma poetry_memoized_witness :
  poetry factory_never_fails (st_of (poetry factory_never_fails sample_state))
  = (Ret 0%nat, st_of (poetry factory_never_fails sample_state), []).
Proof.
  destruct (poetry_memoized factory_never_fails sample_state
              (st_of (poetry factory_never_fails sample_state)) 0%nat []
              ltac:(intros p Hp; discriminate Hp) eq_refl) as [H _].
  exact H.
Defined.



(** C8: the environment listener leaves a command with a bound
    environment unchanged and the installer listener leaves a command
    with a bound installer unchanged; hence a bound environment or
    installer survives any number of further dispatches of the command
    event, and dispatching the event twice is the same as once. *)
Theorem listeners_idempotent (create_venv make_installer : Command -> nat)
    (c : Command) :
  (cmd_env c <> None -> configure_env create_venv c = c) /\
  (cmd_installer c <> None -> configure_installer_for_event make_installer c = c) /\
  (forall n e, cmd_env c = Some e ->
     cmd_env (Nat.iter n (dispatch_command_event create_venv make_installer) c)
     = Some e) /\
  (forall n i, cmd_installer c = Some i ->
     cmd_installer (Nat.iter n (dispatch_command_event create_venv make_installer) c)
     = Some i) /\
  dispatch_command_event create_venv make_installer
    (dispatch_command_event create_venv make_installer c)
  = dispatch_command_event create_venv make_installer c.
Proof.
  split; [apply configure_env_bound |].
  split; [apply configure_installer_bound |].
  split; [| split].
  - intros n e He. induction n as [| n IH]; [exact He |].
    rewrite Nat.iter_succ. revert IH.
    generalize (Nat.iter n (dispatch_command_event create_venv make_installer) c) as d.
    intros d Hd. unfold dispatch_command_event, register_command_loggers.
    rewrite configure_installer_env, configure_env_bound; [exact Hd |].
    rewrite Hd. discriminate.
  - intros n i Hi. induction n as [| n IH]; [exact Hi |].
    rewrite Nat.iter_succ. revert IH.
    generalize (Nat.iter n (dispatch_command_event create_venv make_installer) c) as d.
    intros d Hd. unfold dispatch_command_event, register_command_loggers.
    rewrite configure_installer_bound; rewrite configure_env_installer, Hd;
      [reflexivity | discriminate].
  - destruct c as [nm ip ie isf ii env inst lg].
    unfold dispatch_command_event, register_command_loggers,
      configure_env, configure_installer_for_event.
    destruct ie, isf, ii, env, inst; reflexivity.
Qed.

End ConsoleClaims.

(* ================================================================== *)
(** * Further properties of [poetry.utils._compat] *)

Module CompatFacts.
Import Compat.

Lemma utf8_encode_ignore_of_encode (s : pystr) (b : pybytes) :
  utf8_encode s = Some b -> utf8_encode_ignore s = b.
Proof.
  revert b; induction s as [| c r IH]; intros b H; simpl in *.
  - injection H as <-. reflexivity.
  - destruct (utf8_encode_cp c) as [bc |]; [| discriminate].
    destruct (utf8_encode r) as [br |]; [| discriminate].
    injection H as <-. rewrite (IH br eq_refl). reflexivity.
Qed.

Lemma utf8_encode_none (s : pystr) :
  utf8_encode s = None -> exists c, In c s /\ utf8_encode_cp c = None.
Proof.
  induction s as [| c r IH]; simpl; [discriminate |].
  destruct (utf8_encode_cp c) eqn:Hc; [| eauto].
  destruct (utf8_encode r); [discriminate |].
  intros _. destruct (IH eq_refl) as (c' & Hin & Hc'). eauto.
Qed.

(** A non-negative code point without a UTF-8 encoding is a surrogate or
    lies above U+10FFFF; either way it is at least 0xD800. *)
Lemma utf8_encode_cp_none (c : Z) :
  0 <= c -> utf8_encode_cp c = None -> 0xD800 <= c.
Proof.
  intros H0. unfold utf8_encode_cp.
  destruct (Z.ltb_spec c 0); [lia |].
  destruct (Z.ltb_spec c 0x80); [discriminate |].
  destruct (Z.ltb_spec c 0x800); [discriminate |].
  destruct (in_range 0xD800 0xDFFF c) eqn:Hs.
  - intros _. unfold in_range in Hs. apply andb_true_iff in Hs.
    destruct Hs as [Hs _]. apply Z.leb_le in Hs. exact Hs.
  - destruct (Z.ltb_spec c 0x10000); [discriminate |].
    destruct (Z.leb_spec c 0x10FFFF); [discriminate | lia].
Qed.

Lemma utf8_encode_cp_some (c : Z) :
  0 <= c <= 0x10FFFF -> in_range 0xD800 0xDFFF c = false ->
  exists b, utf8_encode_cp c = Some b.
Proof.
  intros Hc Hs. unfold utf8_encode_cp.
  destruct (Z.ltb_spec c 0); [lia |].
  destruct (Z.ltb_spec c 0x80); [eauto |].
  destruct (Z.ltb_spec c 0x800); [eauto |].
  rewrite Hs.
  destruct (Z.ltb_spec c 0x10000); [eauto |].
  destruct (Z.leb_spec c 0x10FFFF); [eauto | lia].
Qed.

Lemma all_below_false (n : Z) (l : list Z) (c : Z) :
  In c l -> n <= c -> all_below n l = false.
Proof.
  intros Hin Hc. unfold all_below.
  apply not_true_iff_false. intros H. rewrite forallb_forall in H.
  specialize (H c Hin). apply Z.ltb_lt in H. lia.
Qed.

Lemma all_below_true (n : Z) (l : list Z) :
  Forall (fun c => c < n) l -> all_below n l = true.
Proof.
  intros H. unfold all_below. apply forallb_forall.
  intros c Hin. apply Z.ltb_lt. rewrite Forall_forall in H. exact (H c Hin).
Qed.

(** Dropping the surrogates first makes strict encoding succeed with the
    bytes [errors="ignore"] produces. *)
Lemma utf8_encode_filter (s : pystr) :
  Forall (fun c => 0 <= c <= 0x10FFFF) s ->
  utf8_encode (filter (fun c => negb (in_range 0xD800 0xDFFF c)) s)
  = Some (utf8_encode_ignore s).
Proof.
  induction 1 as [| c r Hc _ IH]; [reflexivity |]. simpl.
  destruct (in_range 0xD800 0xDFFF c) eqn:Hs; simpl.
  - assert (Hn : utf8_encode_cp c = None).
    { unfold utf8_encode_cp.
      unfold in_range in Hs. apply andb_true_iff in Hs.
      destruct Hs as [Hs1 Hs2]. apply Z.leb_le in Hs1, Hs2.
      rewrite ltb_false by lia. rewrite ltb_false by lia. rewrite ltb_false by lia.
      unfold in_range. rewrite (proj2 (Z.leb_le _ _)) by lia.
      rewrite (proj2 (Z.leb_le _ _)) by lia. reflexivity. }
    rewrite Hn. exact IH.
  - destruct (utf8_encode_cp_some c Hc Hs) as [b Hb]. rewrite Hb, IH. reflexivity.
Qed.

(** Strict and [errors="ignore"] decoding agree on valid UTF-8. *)
Lemma utf8_decode_ignore_valid (b : pybytes) (s : pystr) :
  utf8_decode b = Some s -> utf8_decode_ignore b = s.
Proof.
  revert s.
  induction b as [b IH] using
    (well_founded_induction (well_founded_ltof _ (@length Z))).
  intros s. destruct b as [| b0 r]; simpl.
  { intros H. injection H as <-. reflexivity. }
  repeat match goal with
  | |- context [if ?c then _ else _] => destruct c
  | |- context [match ?l with [] => _ | _ :: _ => _ end] =>
      is_var l; destruct l
  end;
  try discriminate;
  unfold cons_opt;
  match goal with
  | |- match utf8_decode ?t with _ => _ end = Some s -> _ =>
      destruct (utf8_decode t) as [s' |] eqn:E; [| discriminate];
      intros H; injection H as <-; f_equal;
      apply IH; [unfold ltof; simpl; lia | exact E]
  end.
Qed.

Lemma decode_default_utf8 (b : pybytes) (s : pystr) :
  utf8_decode b = Some s -> decode std_registry (PBytes b) None = Ok (PStr s).
Proof.
  intros H. unfold decode, effective_encodings, default_encodings.
  simpl try_decode. rewrite H. reflexivity.
Qed.

Lemma encode_default_utf8_ignore (s : pystr) :
  Forall (fun c => 0 <= c) s ->
  encode std_registry (PStr s) None = Ok (PBytes (utf8_encode_ignore s)).
Proof.
  intros Hs. unfold encode, effective_encodings, default_encodings.
  simpl try_encode.
  destruct (utf8_encode s) as [b |] eqn:Hb.
  - rewrite (utf8_encode_ignore_of_encode s b Hb). reflexivity.
  - destruct (utf8_encode_none s Hb) as (c & Hin & Hc).
    assert (Hc0 : 0 <= c) by (rewrite Forall_forall in Hs; exact (Hs c Hin)).
    pose proof (utf8_encode_cp_none c Hc0 Hc) as Hbig.
    rewrite (all_below_false 256 s c Hin) by lia.
    rewrite (all_below_false 128 s c Hin) by lia.
    reflexivity.
Qed.

(** X1: with the default encodings, [encode] of a str never raises and
    gives its UTF-8 bytes with the unencodable code points (surrogates)
    dropped: UTF-8 is tried first, latin-1 and ascii then fail on such a
    code point, and the fallback encodes with UTF-8 and [errors="ignore"]. *)
Theorem encode_default_is_utf8_ignore (s : pystr) :
  Forall (fun c => 0 <= c) s ->
  encode std_registry (PStr s) None = Ok (PBytes (utf8_encode_ignore s)).
Proof. apply encode_default_utf8_ignore. Qed.

Lemma encode_default_is_utf8_ignore_witness :
  encode std_registry (PStr [0x41; 0xD800; 0xE9]) None
  = Ok (PBytes [0x41; 0xC3; 0xA9]).
Proof.
  rewrite (encode_default_is_utf8_ignore [0x41; 0xD800; 0xE9]).
  - reflexivity.
  - repeat constructor; lia.
Defined.

(** X2: with the default encodings, [decode] of bytes never raises: valid
    UTF-8 is read as UTF-8 and anything else is read as latin-1, one code
    point per byte; the ascii entry and the [errors="ignore"] fallback are
    never reached. *)
Theorem decode_default_is_utf8_or_latin1 (b : pybytes) :
  Forall (fun x => x < 256) b ->
  decode std_registry (PBytes b) None
  = Ok (PStr (match utf8_decode b with Some s => s | None => b end)).
Proof.
  intros Hb. unfold decode, effective_encodings, default_encodings.
  simpl try_decode.
  destruct (utf8_decode b); [reflexivity |].
  rewrite (all_below_true 256 b Hb). reflexivity.
Qed.

Lemma decode_default_is_utf8_or_latin1_witness :
  decode std_registry (PBytes [0x63; 0x61; 0x66; 0xE9]) None
  = Ok (PStr [0x63; 0x61; 0x66; 0xE9]).
Proof.
  rewrite (decode_default_is_utf8_or_latin1 [0x63; 0x61; 0x66; 0xE9]).
  - reflexivity.
  - repeat constructor; lia.
Defined.

(** X3: for every str (code points in [0, 0x10FFFF]), [encode] and then
    [decode] with the default encodings give back the str without its
    surrogate code points, and the rest unchanged. *)
Theorem encode_decode_default_drops_surrogates (s : pystr) :
  Forall (fun c => 0 <= c <= 0x10FFFF) s ->
  exists b, encode std_registry (PStr s) None = Ok (PBytes b) /\
    decode std_registry (PBytes b) None
    = Ok (PStr (filter (fun c => negb (in_range 0xD800 0xDFFF c)) s)).
Proof.
  intros Hs. exists (utf8_encode_ignore s). split.
  - apply encode_default_utf8_ignore.
    apply (Forall_impl (P := fun c => 0 <= c <= 0x10FFFF)); [intros c Hc; lia | exact Hs].
  - apply decode_default_utf8, utf8_decode_encode, utf8_encode_filter, Hs.
Qed.

Lemma encode_decode_default_drops_surrogates_witness :
  exists b, encode std_registry (PStr [0x68; 0xDC80; 0x1F600]) None = Ok (PBytes b) /\
    decode std_registry (PBytes b) None = Ok (PStr [0x68; 0x1F600]).
Proof.
  apply (encode_decode_default_drops_surrogates [0x68; 0xDC80; 0x1F600]).
  repeat constructor; lia.
Defined.

(** X4: with [encodings=["utf-8"]], [decode] never raises: it returns
    the same text as [bytes.decode("utf-8", errors="ignore")], which is the
    strict decoding on valid UTF-8. *)
Theorem decode_utf8_only_is_ignore (b : pybytes) :
  decode std_registry (PBytes b) (Some ["utf-8"]) = Ok (PStr (utf8_decode_ignore b)).
Proof.
  unfold decode, effective_encodings. simpl try_decode.
  destruct (utf8_decode b) as [s |] eqn:Hb; [| reflexivity].
  rewrite (utf8_decode_ignore_valid b s Hb). reflexivity.
Qed.

End CompatFacts.

(* ================================================================== *)
(** * Further properties of [poetry.console.application] *)

Module ConsoleFacts.
Import Console.

(** ** String helpers *)

Lemma str_append_empty_r (s : string) : String.append s "" = s.
Proof. induction s as [| c r IH]; simpl; [reflexivity | rewrite IH; reflexivity]. Qed.

Lemma str_append_assoc (a b c : string) :
  String.append (String.append a b) c = String.append a (String.append b c).
Proof. induction a as [| x r IH]; simpl; [reflexivity | rewrite IH; reflexivity]. Qed.

Lemma str_append_inj_l (p x y : string) :
  String.append p x = String.append p y -> x = y.
Proof. induction p as [| c r IH]; simpl; [auto | intros H; injection H; auto]. Qed.

Lemma py_split_aux_nonempty (sep : ascii) (s cur : string) :
  py_split_aux sep s cur <> [].
Proof.
  revert cur; induction s as [| c r IH]; intros cur; simpl; [discriminate |].
  destruct (Ascii.eqb c sep); [discriminate | apply IH].
Qed.

Lemma py_join_cons (sep x : string) (l : list string) :
  l <> [] -> py_join sep (x :: l) = String.append x (String.append sep (py_join sep l)).
Proof. destruct l; [contradiction | reflexivity]. Qed.

Lemma join_split_dots (s cur : string) :
  py_join "." (py_split_aux " "%char s cur) = String.append cur (dots s).
Proof.
  revert cur; induction s as [| c r IH]; intros cur; simpl.
  - rewrite str_append_empty_r. reflexivity.
  - destruct (Ascii.eqb c " "%char) eqn:Hc.
    + rewrite py_join_cons by apply py_split_aux_nonempty.
      rewrite IH. reflexivity.
    + rewrite IH, str_append_assoc. reflexivity.
Qed.

Lemma dots_inj (s1 s2 : string) :
  ~ In "."%char (list_ascii_of_string s1) -> ~ In "."%char (list_ascii_of_string s2) ->
  dots s1 = dots s2 -> s1 = s2.
Proof.
  revert s2; induction s1 as [| c1 r1 IH]; intros [| c2 r2] H1 H2 H; simpl in *;
    try discriminate; [reflexivity |].
  injection H as Hc Hr. f_equal; [| apply IH; auto].
  destruct (Ascii.eqb_spec c1 " "%char), (Ascii.eqb_spec c2 " "%char);
    subst; try reflexivity; exfalso; auto.
Qed.

Lemma nodupb_NoDup (l : list string) : nodupb l = true -> NoDup l.
Proof.
  induction l as [| x r IH]; simpl; intros H; constructor.
  - apply andb_true_iff in H. destruct H as [H _].
    intros Hin. apply negb_true_iff in H. rewrite <- not_true_iff_false in H.
    apply H, existsb_exists. exists x. split; [exact Hin | apply String.eqb_refl].
  - apply andb_true_iff in H. apply IH, H.
Qed.

(** ** Shortcut strings *)

Lemma lstrip_dash_nodash (c : ascii) (r : string) :
  Ascii.eqb c "-"%char = false -> lstrip_dash (String c r) = String c r.
Proof. intros H. simpl. rewrite H. reflexivity. Qed.

Lemma split_bar_dash_piece (p rest cur : string) :
  ~ In "|"%char (list_ascii_of_string p) ->
  split_bar_dash_aux (String.append p rest) cur
  = split_bar_dash_aux rest (String.append cur p).
Proof.
  revert cur; induction p as [| c r IH]; intros cur Hp; simpl in *.
  - rewrite str_append_empty_r. reflexivity.
  - destruct (Ascii.eqb_spec c "|"%char) as [-> | Hc]; [exfalso; auto |].
    rewrite IH by auto. rewrite str_append_assoc. reflexivity.
Qed.

Lemma good_piece_head (p : string) :
  good_piece p -> exists c r, p = String c r /\ Ascii.eqb c "-"%char = false.
Proof.
  intros (Hne & _ & Hd). destruct p as [| c r]; [contradiction |].
  exists c, r. split; [reflexivity |].
  destruct (Ascii.eqb_spec c "-"%char) as [-> | Hc]; [exfalso; apply (Hd r); reflexivity |].
  reflexivity.
Qed.

Lemma split_bar_next (q x cur : string) :
  good_piece q ->
  split_bar_dash_aux (String.append "|" (String.append q x)) cur
  = cur :: split_bar_dash_aux (String.append q x) "".
Proof.
  intros Hq. destruct (good_piece_head q Hq) as (c & r & -> & Hc).
  simpl. rewrite Hc. reflexivity.
Qed.

Lemma py_join_head (sep p : string) (ps : list string) :
  exists x, py_join sep (p :: ps) = String.append p x.
Proof.
  destruct ps as [| q qs].
  - exists "". simpl. rewrite str_append_empty_r. reflexivity.
  - eexists. reflexivity.
Qed.

Lemma split_join_pieces (pieces : list string) :
  pieces <> [] -> Forall good_piece pieces ->
  split_bar_dash_aux (py_join "|" pieces) "" = pieces.
Proof.
  induction pieces as [| p ps IH]; intros Hne Hg; [contradiction |].
  inversion Hg as [| ? ? Hp Hps]; subst.
  destruct ps as [| q qs].
  - simpl. rewrite <- (str_append_empty_r p) at 1.
    rewrite split_bar_dash_piece by apply Hp. reflexivity.
  - rewrite py_join_cons by discriminate.
    rewrite split_bar_dash_piece by apply Hp.
    inversion Hps as [| ? ? Hq _]; subst.
    destruct (py_join_head "|" q qs) as [x Hx].
    rewrite Hx, split_bar_next by exact Hq.
    rewrite <- Hx, IH by (discriminate || exact Hps).
    reflexivity.
Qed.

(** ** Listeners *)

Lemma configure_env_flags (cv : Command -> nat) (c : Command) :
  is_env_command (configure_env cv c) = is_env_command c /\
  is_self_command (configure_env cv c) = is_self_command c /\
  is_installer_command (configure_env cv c) = is_installer_command c.
Proof.
  unfold configure_env.
  destruct (negb (is_env_command c) || is_self_command c); [auto |].
  destruct (cmd_env c); auto.
Qed.

Lemma shortcut_map_good (l : list string) :
  Forall good_piece l ->
  map (fun s => String.append "-" (lstrip_dash s)) (filter (fun s => negb (String.eqb s "")) l)
  = map (String.append "-") l.
Proof.
  induction 1 as [| p ps Hp _ IH]; [reflexivity |].
  destruct (good_piece_head p Hp) as (c & r & -> & Hc).
  simpl filter. cbn [map]. rewrite lstrip_dash_nodash by exact Hc.
  rewrite IH. reflexivity.
Qed.

(** X5: [load_command(name)] imports the module
    [poetry.console.commands.] followed by the name with its spaces
    replaced by dots, so names without dots never share a module; the
    entries of [COMMANDS] get pairwise distinct modules and pairwise
    distinct class names. *)
Theorem load_command_targets_distinct :
  (forall name, load_command_module name
                = String.append "poetry.console.commands." (dots name)) /\
  (forall n1 n2,
     ~ In "."%char (list_ascii_of_string n1) -> ~ In "."%char (list_ascii_of_string n2) ->
     load_command_module n1 = load_command_module n2 -> n1 = n2) /\
  NoDup (map load_command_module COMMANDS) /\
  NoDup (map load_command_class COMMANDS).
Proof.
  assert (Hm : forall name, load_command_module name
                = String.append "poetry.console.commands." (dots name)).
  { intros name. unfold load_command_module, py_split.
    rewrite join_split_dots. reflexivity. }
  split; [exact Hm |]. split.
  - intros n1 n2 H1 H2 H. rewrite !Hm in H.
    apply str_append_inj_l in H. exact (dots_inj n1 n2 H1 H2 H).
  - split; apply nodupb_NoDup; vm_compute; reflexivity.
Qed.

(** X6: for a poetry command, [register_command_loggers] sets a level on
    each of its three fixed loggers and on each logger the command lists,
    and on no other; every level lies between DEBUG and WARNING, is DEBUG
    in debug mode, at most INFO in verbose mode, and at most INFO for the
    [poetry.core.masonry.builders] loggers; the poetry-only filter is
    added exactly when the output is not very verbose. *)
Theorem command_logger_levels (c : Command) (v : Verbosity) :
  is_poetry_command c = true ->
  (forall name, In name (fixed_loggers ++ cmd_loggers c) ->
     exists lvl, In (SetLevel name lvl) (command_logger_calls c v)) /\
  (forall name lvl, In (SetLevel name lvl) (command_logger_calls c v) ->
     In name (fixed_loggers ++ cmd_loggers c) /\
     logging_DEBUG <= lvl <= logging_WARNING /\
     (String.prefix "poetry.core.masonry.builders" name = true -> lvl <= logging_INFO) /\
     (is_verbose v = true -> lvl <= logging_INFO) /\
     (is_debug v = true -> lvl = logging_DEBUG)) /\
  (In AddPoetryFilter (command_logger_calls c v) <-> is_very_verbose v = false).
Proof.
  intros Hc. unfold command_logger_calls. rewrite Hc. cbn [negb].
  split; [| split].
  - intros name Hin. eexists. right. apply in_app_iff. right.
    apply in_map_iff. exists name. split; [reflexivity | exact Hin].
  - intros name lvl Hin. destruct Hin as [Hb | Hin]; [discriminate |].
    apply in_app_iff in Hin. destruct Hin as [Hf | Hm].
    + destruct (negb (is_very_verbose v)); simpl in Hf;
        [destruct Hf as [Hf | []]; discriminate | contradiction].
    + apply in_map_iff in Hm. destruct Hm as (n & Heq & Hn).
      injection Heq as <- <-. split; [exact Hn |].
      destruct v; destruct (String.prefix _ n);
        cbn; repeat split; intros; try lia; discriminate.
  - split.
    + intros [Hb | Hin]; [discriminate |].
      destruct (is_very_verbose v); [| reflexivity].
      cbn [negb app] in Hin. apply in_map_iff in Hin. destruct Hin as (n & Heq & _).
      discriminate.
    + intros Hv. rewrite Hv. right. left. reflexivity.
Qed.

Lemma command_logger_levels_witness :
  exists lvl,
    In (SetLevel "poetry.core.masonry.builders.wheel" lvl)
       (command_logger_calls sample_build_command NORMAL) /\
    lvl <= logging_INFO.
Proof.
  destruct (command_logger_levels sample_build_command NORMAL eq_refl)
    as (Hall & Hlvl & _).
  destruct (Hall "poetry.core.masonry.builders.wheel") as [lvl Hin].
  { simpl. auto 10. }
  exists lvl. split; [exact Hin |].
  destruct (Hlvl _ _ Hin) as (_ & _ & Hb & _). apply Hb. reflexivity.
Defined.

(** X7: after the command event, an environment command that is not a
    self command has an environment and an installer command has an
    installer; an installer the listener creates is built from the command
    as the environment listener left it, and the environment of any other
    command is left as it was. *)
Theorem dispatch_binds_env_then_installer (create_venv make_installer : Command -> nat)
    (c : Command) :
  (is_env_command c = true -> is_self_command c = false ->
     exists e, cmd_env (dispatch_command_event create_venv make_installer c) = Some e) /\
  (is_installer_command c = true ->
     exists i, cmd_installer (dispatch_command_event create_venv make_installer c)
               = Some i) /\
  (is_installer_command c = true -> cmd_installer c = None ->
     cmd_installer (dispatch_command_event create_venv make_installer c)
     = Some (make_installer (configure_env create_venv c))) /\
  (is_env_command c = false \/ is_self_command c = true ->
     cmd_env (dispatch_command_event create_venv make_installer c) = cmd_env c).
Proof.
  destruct c as [nm ip ie isf ii env inst lg].
  unfold dispatch_command_event, register_command_loggers,
    configure_env, configure_installer_for_event.
  destruct ie, isf, ii, env, inst; cbn;
    repeat split; intros; try discriminate;
    repeat match goal with H : _ \/ _ |- _ => destruct H end;
    try discriminate; eauto.
Qed.

(** X8: a shortcut string made of pieces joined with [|] (each piece
    non-empty, without [|] and not starting with [-], the form cleo
    stores) is injected into the run input as exactly those pieces, each
    prefixed with [-], in order. *)
Theorem shortcut_parameters_join (pieces : list string) :
  Forall (fun p => p <> "" /\ ~ In "|"%char (list_ascii_of_string p) /\
                   (forall r, p <> String "-" r)) pieces ->
  shortcut_parameters (py_join "|" pieces) = map (String.append "-") pieces.
Proof.
  intros Hg. change (Forall good_piece pieces) in Hg.
  destruct pieces as [| p ps]; [reflexivity |].
  unfold shortcut_parameters, split_bar_dash.
  inversion Hg as [| ? ? Hp _]; subst.
  assert (Hl : lstrip_dash (py_join "|" (p :: ps)) = py_join "|" (p :: ps)).
  { destruct (py_join_head "|" p ps) as [x Hx]. rewrite Hx.
    destruct (good_piece_head p Hp) as (c & r & -> & Hc).
    simpl. rewrite Hc. reflexivity. }
  rewrite Hl, split_join_pieces by (discriminate || exact Hg).
  apply shortcut_map_good, Hg.
Qed.

Lemma shortcut_parameters_join_witness :
  shortcut_parameters "v|vv|vvv" = ["-v"; "-vv"; "-vvv"].
Proof.
  apply (shortcut_parameters_join ["v"; "vv"; "vvv"]).
  repeat constructor; try discriminate;
    simpl; intuition discriminate.
Defined.

(** ** Reading options from the tokens *)

Lemma has_parameter_option_app (values l1 l2 : list string) :
  has_parameter_option values (l1 ++ l2)
  = has_parameter_option values l1 || has_parameter_option values l2.
Proof. unfold has_parameter_option. apply existsb_app. Qed.

Lemma first_value_none (values : list string) (token : string) (rest : list string) :
  existsb (fun value => matches_option value token) values = false ->
  first_value values token rest = None.
Proof.
  induction values as [| value vs IH]; simpl; [reflexivity |].
  unfold matches_option. intros H.
  apply orb_false_iff in H. destruct H as [H1 H2].
  apply orb_false_iff in H1. destruct H1 as [-> ->]. apply IH, H2.
Qed.

Lemma parameter_option_skip (values : list string) (d : pyval) (pre l : list string) :
  has_parameter_option values pre = false ->
  parameter_option values d (pre ++ l) = parameter_option values d l.
Proof.
  unfold has_parameter_option.
  induction pre as [| t r IH]; simpl; [reflexivity |].
  intros H. apply orb_false_iff in H. destruct H as [H1 H2].
  rewrite (first_value_none values t (r ++ l) H1). apply IH, H2.
Qed.


Lemma substring_0_length (s : string) : substring 0 (String.length s) s = s.
Proof. induction s as [| c r IH]; simpl; [reflexivity | rewrite IH; reflexivity]. Qed.

Lemma option_get_value_value (name sc : string) (toks : list string) (d : pyval) :
  In (name, sc) [("directory", "C"); ("project", "P")] ->
  option_get_value toks name d
  = if negb (has_parameter_option [String.append "--" name; String.append "-" sc] toks)
    then Ret d
    else parameter_option [String.append "--" name; String.append "-" sc] d toks.
Proof. intros [E | [E | []]]; injection E as <- <-; reflexivity. Qed.

(** X9: on a plain [ArgvInput], [_option_get_value] for [--directory]
    ([-C]) and [--project] ([-P]) returns the default when the option is
    absent; otherwise the first occurrence decides: [--name v] and
    [-S v] give [v], the option as the last token gives no value
    ([None]), while [--name=text] and [-Stext] give only the first
    character of [text] (cleo returns [token[len(leading)]]) and
    [--name=] alone raises [IndexError]. *)
Theorem option_value_forms (name sc : string) (pre rest : list string) (v : string)
    (c : ascii) (r : string) (d : pyval) :
  In (name, sc) [("directory", "C"); ("project", "P")] ->
  has_parameter_option [String.append "--" name; String.append "-" sc] pre = false ->
  option_get_value pre name d = Ret d /\
  option_get_value (pre ++ String.append "--" name :: v :: rest) name d = Ret (VStr v) /\
  option_get_value (pre ++ String.append "--" (String.append name (String.append "=" (String c r)))
                    :: rest) name d = Ret (VStr (String c EmptyString)) /\
  option_get_value (pre ++ String.append "--" (String.append name "=") :: rest) name d
  = Exc IndexError /\
  option_get_value (pre ++ String.append "-" sc :: v :: rest) name d = Ret (VStr v) /\
  option_get_value (pre ++ String.append "-" (String.append sc (String c r)) :: rest) name d
  = Ret (VStr (String c EmptyString)) /\
  option_get_value (pre ++ [String.append "--" name]) name d = Ret VNone /\
  option_get_value (pre ++ [String.append "-" sc]) name d = Ret VNone.
Proof.
  intros Hin Hpre. rewrite !(option_get_value_value name sc _ d Hin).
  rewrite !has_parameter_option_app, Hpre, !parameter_option_skip by exact Hpre.
  cbn [orb negb].
  destruct Hin as [E | [E | []]]; injection E as <- <-;
    repeat split; reflexivity.
Qed.

Lemma option_value_forms_witness :
  option_get_value ["--no-cache"; "--directory=/tmp"; "about"] "directory" (VStr "/home/u")
  = Ret (VStr "/").
Proof.
  destruct (option_value_forms "directory" "C" ["--no-cache"] ["about"] "/tmp"
              "/"%char "tmp" (VStr "/home/u") ltac:(simpl; auto) eq_refl)
    as (_ & _ & H & _).
  exact H.
Defined.



Lemma existsb_eqb_In (p : string) (l : list string) :
  existsb (String.eqb p) l = true -> In p l.
Proof.
  intros H. apply existsb_exists in H as [x [Hx E]].
  apply String.eqb_eq in E. subst. exact Hx.
Qed.





















Lemma existsb_eqb_In_true (p : string) (l : list string) :
  In p l -> existsb (String.eqb p) l = true.
Proof.
  intros H. apply existsb_exists. exists p. split; [exact H | apply String.eqb_refl].
Qed.







(** X14: with no cached instance, the [poetry] property calls the factory
    exactly once, with the current project directory and plugin and cache
    flags. On success the instance is cached; when the factory raises, the
    error propagates and nothing is cached, so the next access calls the
    factory again. *)
Lemma poetry_fresh_build (create_poetry_fails : string -> bool) (s : AppState) :
  poetry_cache s = None ->
  exists s1,
    factory_log s1
      = factory_log s ++ [(project_directory s, disable_plugins s, disable_cache s)] /\
    project_directory s1 = project_directory s /\
    if create_poetry_fails (project_directory s)
    then poetry create_poetry_fails s = (Exc PoetryError, s1, []) /\ poetry_cache s1 = None
    else poetry create_poetry_fails s = (Ret (length (factory_log s)), s1, []) /\
         poetry_cache s1 = Some (length (factory_log s)).
Proof.
  intros Hc.
  unfold poetry, bindM, get, ret, modify, raise. cbn. rewrite Hc.
  destruct (create_poetry_fails (project_directory s)).
  - eexists. split; [| split; [| split; [reflexivity |]]]; cbn; [reflexivity | | exact Hc].
    unfold project_directory. reflexivity.
  - eexists. split; [| split; [| split; [reflexivity |]]]; cbn; reflexivity.
Qed.

Lemma poetry_fresh_build_witness :
  exists s1,
    factory_log s1 = [("/home/u", false, false)] /\
    project_directory s1 = "/home/u" /\
    poetry (fun _ => true) s1 = (Exc PoetryError, st_of (poetry (fun _ => true) s1), []) /\
    poetry (fun _ => true) sample_state = (Exc PoetryError, s1, []) /\ poetry_cache s1 = None.
Proof.
  destruct (poetry_fresh_build (fun _ => true) sample_state eq_refl) as (s1 & Hl & Hp & Hf).
  exists s1. cbv iota in Hf. destruct Hf as [Hf Hc].
  split; [exact Hl |]. split; [exact Hp |]. split; [| exact (conj Hf Hc)].
  unfold poetry, bindM, get, modify, raise. cbn. rewrite Hc. reflexivity.
Defined.

Lemma dedup_plugins_aux_sub (seen : list string) (l : list Plugin) (q : Plugin) :
  In q (dedup_plugins_aux seen l) -> In q l /\ ~ In (plugin_name q) seen.
Proof.
  revert seen. induction l as [| p r IH]; intros seen H; [destruct H |]. simpl in H.
  destruct (existsb (String.eqb (plugin_name p)) seen) eqn:E.
  - destruct (IH seen H) as [H1 H2]. split; [right; exact H1 | exact H2].
  - destruct H as [<- | H].
    + split; [left; reflexivity |]. intros Hin.
      rewrite (existsb_eqb_In_true _ _ Hin) in E. discriminate E.
    + destruct (IH _ H) as [H1 H2]. split; [right; exact H1 |].
      intros Hin. apply H2. right. exact Hin.
Qed.

Lemma dedup_plugins_aux_nodup (seen : list string) (l : list Plugin) :
  NoDup (map plugin_name (dedup_plugins_aux seen l)).
Proof.
  revert seen. induction l as [| p r IH]; intros seen; simpl; [constructor |].
  destruct (existsb (String.eqb (plugin_name p)) seen); [apply IH |].
  simpl. constructor; [| apply IH].
  intros Hin. apply in_map_iff in Hin as [q [Hq Hin]].
  apply dedup_plugins_aux_sub in Hin as [_ Hn]. apply Hn. left. symmetry. exact Hq.
Qed.

Lemma dedup_plugins_aux_covers (seen : list string) (l : list Plugin) (p : Plugin) :
  In p l ->
  In (plugin_name p) seen \/
  exists q, In q (dedup_plugins_aux seen l) /\ plugin_name q = plugin_name p.
Proof.
  revert seen. induction l as [| p' r IH]; intros seen H; [destruct H |]. simpl.
  destruct (existsb (String.eqb (plugin_name p')) seen) eqn:E.
  - destruct H as [<- | H]; [left; apply existsb_eqb_In, E | exact (IH seen H)].
  - destruct H as [<- | H]; [right; exists p'; split; [left |]; reflexivity |].
    destruct (IH (plugin_name p' :: seen) H) as [[Hn | Hn] | (q & Hq & Hqn)].
    + right. exists p'. split; [left; reflexivity | exact Hn].
    + left. exact Hn.
    + right. exists q. split; [right; exact Hq | exact Hqn].
Qed.

(** X15: the first [_load_plugins] call without [--no-plugins] among the
    tokens overwrites the plugin flag with [False], adds the project
    directory to the plugin paths, discovers the installed plugins with one
    plugin per identifier (the first one installed), activates those that
    do not fail (their names and commands are appended, no name twice),
    logs one line per failing one and skips it, logs one loading phase
    with the process working directory unchanged, and marks the plugins
    loaded. *)
Lemma load_plugins_first (installed : list Plugin) (toks : list string) (s : AppState) :
  plugins_loaded s = false ->
  has_parameter_option ["--no-plugins"] toks = false ->
  let found := dedup_plugins installed in
  let ok := filter (fun p => negb (plugin_fails p)) found in
  exists s1,
    load_plugins installed toks s = (Ret tt, s1, [PhPluginsLoaded (cwd s)]) /\
    registry s1 = registry s ++ concat (map plugin_commands ok) /\
    activated_plugins s1 = activated_plugins s ++ map plugin_name ok /\
    err_lines s1 = err_lines s ++ map plugin_failure_line (filter plugin_fails found) /\
    plugin_paths s1 = plugin_paths s ++ [project_directory s] /\
    disable_plugins s1 = false /\ plugins_loaded s1 = true /\ cwd s1 = cwd s /\
    NoDup (map plugin_name ok) /\
    (forall q, In q found -> In q installed) /\
    (forall p, In p installed ->
     exists q, In q found /\ plugin_name q = plugin_name p).
Proof.
  intros Hl Hn found ok.
  unfold load_plugins, activate_plugins, bindM, get, ret, modify, emit. cbn.
  rewrite Hl, Hn. cbn.
  eexists. split; [reflexivity |]. cbn.
  unfold project_directory. cbn. repeat split; try reflexivity.
  - unfold ok. pose proof (dedup_plugins_aux_nodup [] installed) as H.
    fold (dedup_plugins installed) in H. fold found in H. clear - H.
    induction found as [| q l IH]; simpl in *; [constructor |].
    inversion H as [| x y Hq Hd]; subst.
    destruct (negb (plugin_fails q)); [simpl; constructor |]; auto.
    intros Hin. apply Hq. apply in_map_iff in Hin as [r [Hr Hin]].
    apply filter_In in Hin as [Hin _]. rewrite <- Hr. apply in_map, Hin.
  - intros q Hq. exact (proj1 (dedup_plugins_aux_sub [] installed q Hq)).
  - intros p Hp. destruct (dedup_plugins_aux_covers [] installed p Hp) as [[] | H].
    exact H.
Qed.

Lemma load_plugins_first_witness :
  exists s1,
    load_plugins [sample_plugin; sample_plugin] ["about"] sample_state
      = (Ret tt, s1, [PhPluginsLoaded "/home/u"]) /\
    activated_plugins s1 = ["poetry-plugin-export"] /\
    plugin_paths s1 = ["/home/u"].
Proof.
  destruct (load_plugins_first [sample_plugin; sample_plugin] ["about"] sample_state
              eq_refl eq_refl)
    as (s1 & H & _ & Ha & _ & Hp & _).
  exists s1. split; [exact H |]. split; [rewrite Ha; reflexivity | rewrite Hp; reflexivity].
Defined.

End ConsoleFacts.
